(** * Event registration page: field validation and submission state machine

    A shallow embedding of [src/app/[company_name]/[event_id]/register/page.tsx]
    (the [EventRegistrationPage] component) and the properties of its
    decision logic: the field validator, the event resolver and the
    submission handler.

    Conventions of the embedding.
    - A JavaScript string is a sequence of code units.  The model uses
      [string], whose characters are the code units U+0000 to U+00FF; on
      that range [trim], [toLowerCase] and the regular-expression classes
      [\s] and [\d] are the ECMAScript ones.
    - A JavaScript object used as a map ([formData], [formErrors], the JSON
      body of the registration request) is a [gmap string string].
    - A call of a React state setter is an [Update].  A handler or an
      effect is a function from the state of the render that created it to
      the setter calls it makes: a state variable it reads is the constant
      of that render, which its own setter calls do not change.  React
      applies the calls to the state in order.
    - [try]/[catch]/[finally] and [throw] are written in a small exception
      monad that also logs the setter calls. *)

From Stdlib Require Import Ascii ZArith NArith List Bool Lia.
From Stdlib Require String.
From stdpp Require Import base option list strings gmap fin_maps.

(** ** Strings *)

Module Js.

(** The code units of a string. *)
Definition units (s : string) : list ascii := String.list_ascii_of_string s.

Definition code (c : ascii) : N := N_of_ascii c.

(** ECMAScript [WhiteSpace] and [LineTerminator] code points below U+0100:
    TAB, LF, VT, FF, CR, SP and NBSP. *)
Definition whiteSpace : list ascii :=
  ["009"; "010"; "011"; "012"; "013"; "032"; "160"]%char.

(** Both [String.prototype.trim] and the class [\s] use this set. *)
Definition isWhiteSpace (c : ascii) : bool := existsb (Ascii.eqb c) whiteSpace.

Definition digits : list ascii := units "0123456789".

(** The class [\d]: the ten digits [0-9]. *)
Definition isDigit (c : ascii) : bool := existsb (Ascii.eqb c) digits.

Global Arguments isWhiteSpace : simpl never.
Global Arguments isDigit : simpl never.

Fixpoint trimStart (s : string) : string :=
  match s with
  | EmptyString => EmptyString
  | String c s' => if isWhiteSpace c then trimStart s' else s
  end.

Fixpoint trimEnd (s : string) : string :=
  match s with
  | EmptyString => EmptyString
  | String c s' =>
      match trimEnd s' with
      | EmptyString => if isWhiteSpace c then EmptyString else String c EmptyString
      | t => String c t
      end
  end.

(** [s.trim()] *)
Definition trim (s : string) : string := trimEnd (trimStart s).

(** Lower-case mapping of one code unit: [A-Z] and the capital letters
    U+00C0 to U+00DE (but not the multiplication sign U+00D7) move up
    by 32; everything else below U+0100 is its own lower case. *)
Definition lowerUnit (c : ascii) : ascii :=
  if ((65 <=? code c) && (code c <=? 90)
      || (192 <=? code c) && (code c <=? 222) && negb (code c =? 215))%N
  then ascii_of_N (code c + 32)
  else c.

(** [s.toLowerCase()] *)
Fixpoint toLowerCase (s : string) : string :=
  match s with
  | EmptyString => EmptyString
  | String c s' => String (lowerUnit c) (toLowerCase s')
  end.

End Js.

(** ** Regular expressions

    The two patterns of [validateField] are anchored at both ends and have
    no flags, so [re.test(s)] holds exactly when the whole of [s] belongs to
    the language of the pattern.  [test] decides that with derivatives. *)

Module Regex.

Inductive regex : Type :=
| Void                              (* matches nothing *)
| Eps                               (* the empty string *)
| Class (p : ascii -> bool)         (* one code unit of a class *)
| Cat (r1 r2 : regex)               (* r1 r2 *)
| Alt (r1 r2 : regex)               (* r1 | r2 *)
| Star (r : regex).                 (* r* *)

(** [r+] *)
Definition Plus (r : regex) : regex := Cat r (Star r).

(** [r?] *)
Definition Opt (r : regex) : regex := Alt r Eps.

(** [r{n}] *)
Fixpoint Times (n : nat) (r : regex) : regex :=
  match n with
  | O => Eps
  | S n' => Cat r (Times n' r)
  end.

(** [r{lo,hi}] *)
Definition Repeat (lo hi : nat) (r : regex) : regex :=
  Cat (Times lo r) (Times (hi - lo) (Opt r)).

Fixpoint nullable (r : regex) : bool :=
  match r with
  | Void => false
  | Eps => true
  | Class _ => false
  | Cat r1 r2 => nullable r1 && nullable r2
  | Alt r1 r2 => nullable r1 || nullable r2
  | Star _ => true
  end.

Fixpoint deriv (c : ascii) (r : regex) : regex :=
  match r with
  | Void => Void
  | Eps => Void
  | Class p => if p c then Eps else Void
  | Cat r1 r2 =>
      if nullable r1
      then Alt (Cat (deriv c r1) r2) (deriv c r2)
      else Cat (deriv c r1) r2
  | Alt r1 r2 => Alt (deriv c r1) (deriv c r2)
  | Star r1 => Cat (deriv c r1) (Star r1)
  end.

Fixpoint accepts (r : regex) (w : list ascii) : bool :=
  match w with
  | [] => nullable r
  | c :: w' => accepts (deriv c r) w'
  end.

(** [/^r$/.test(s)] *)
Definition test (r : regex) (s : string) : bool := accepts r (Js.units s).

(** The language of a pattern. *)
Inductive Matches : regex -> list ascii -> Prop :=
| MEps : Matches Eps []
| MClass p c : p c = true -> Matches (Class p) [c]
| MCat r1 r2 w1 w2 : Matches r1 w1 -> Matches r2 w2 -> Matches (Cat r1 r2) (w1 ++ w2)
| MAltL r1 r2 w : Matches r1 w -> Matches (Alt r1 r2) w
| MAltR r1 r2 w : Matches r2 w -> Matches (Alt r1 r2) w
| MStarNil r : Matches (Star r) []
| MStarCons r w1 w2 : Matches r w1 -> Matches (Star r) w2 -> Matches (Star r) (w1 ++ w2).

End Regex.

(** ** The field validator (page.tsx, lines 118-141) *)

Import Regex.

(** [[^\s@]] *)
Definition notSpaceAt (c : ascii) : bool :=
  negb (Js.isWhiteSpace c || Ascii.eqb c "@"%char).

(** [/^\d{10,15}$/] *)
Definition phonePattern : regex := Repeat 10 15 (Class Js.isDigit).

(** [/^[^\s@]+@[^\s@]+\.[^\s@]+$/] *)
Definition emailPattern : regex :=
  Cat (Plus (Class notSpaceAt))
    (Cat (Class (Ascii.eqb "@"%char))
       (Cat (Plus (Class notSpaceAt))
          (Cat (Class (Ascii.eqb "."%char))
             (Plus (Class notSpaceAt))))).

Definition validateField (name value : string) : string :=
  if String.eqb name "name" then
    if String.eqb (Js.trim value) "" then "Full name is required" else ""
  else if String.eqb name "phone" then
    if String.eqb (Js.trim value) "" then "Phone number is required"
    else if negb (test phonePattern value)
         then "Invalid phone number format. Must be 10-15 digits"
         else ""
  else if String.eqb name "email" then
    if String.eqb (Js.trim value) "" then "Email is required"
    else if negb (test emailPattern value) then "Invalid email format"
         else ""
  else if String.eqb name "college" then
    if String.eqb (Js.trim value) "" then "College name is required" else ""
  else if String.eqb name "nationalId" then
    if String.eqb (Js.trim value) "" then "National ID is required" else ""
  else "".

(** ** Data model (page.tsx, lines 8-60) *)

(** [interface Event] *)
Module Event.
Record t : Type := {
  id : string;
  name : string;
  image : option string;
  description : string;
  date : string;
  registrations : Z;
  status : option string;          (* status?: string *)
  companyStatus : option string    (* companyStatus?: string *)
}.
End Event.

(** The two decoded path segments of the page. *)
Record Props : Type := {
  companyName : string;
  eventId : string
}.

(** The [useState] cells of the component.  [formData] and [formErrors] are
    JavaScript objects keyed by field name. *)
Record PageState : Type := {
  formData : gmap string string;
  formErrors : gmap string string;
  loading : bool;
  submitting : bool;
  error : string;
  success : bool;
  event : option Event.t;
  eventDisabled : bool;
  companyDisabled : bool
}.

(** The object literal that initialises [formData] and to which a successful
    submission resets it. *)
Definition emptyFormData : gmap string string :=
  <["name" := ""]> (<["phone" := ""]> (<["email" := ""]> (<["gender" := "male"]>
  (<["college" := ""]> (<["status" := "student"]> (<["nationalId" := ""]> ∅)))))).

Definition initialState : PageState := {|
  formData := emptyFormData;
  formErrors := ∅;
  loading := true;
  submitting := false;
  error := "";
  success := false;
  event := None;
  eventDisabled := false;
  companyDisabled := false
|}.

(** A call of a state setter.  The two object-valued cells take an updater
    function of the previous value, as [handleChange] passes one. *)
Inductive Update : Type :=
| setFormData (f : gmap string string -> gmap string string)
| setFormErrors (f : gmap string string -> gmap string string)
| setLoading (b : bool)
| setSubmitting (b : bool)
| setError (message : string)
| setSuccess (b : bool)
| setEvent (e : Event.t)
| setEventDisabled (b : bool)
| setCompanyDisabled (b : bool).

Definition applyUpdate (st : PageState) (u : Update) : PageState :=
  match u with
  | setFormData f =>
      {| formData := f (formData st); formErrors := formErrors st; loading := loading st;
         submitting := submitting st; error := error st; success := success st;
         event := event st; eventDisabled := eventDisabled st;
         companyDisabled := companyDisabled st |}
  | setFormErrors f =>
      {| formData := formData st; formErrors := f (formErrors st); loading := loading st;
         submitting := submitting st; error := error st; success := success st;
         event := event st; eventDisabled := eventDisabled st;
         companyDisabled := companyDisabled st |}
  | setLoading b =>
      {| formData := formData st; formErrors := formErrors st; loading := b;
         submitting := submitting st; error := error st; success := success st;
         event := event st; eventDisabled := eventDisabled st;
         companyDisabled := companyDisabled st |}
  | setSubmitting b =>
      {| formData := formData st; formErrors := formErrors st; loading := loading st;
         submitting := b; error := error st; success := success st;
         event := event st; eventDisabled := eventDisabled st;
         companyDisabled := companyDisabled st |}
  | setError m =>
      {| formData := formData st; formErrors := formErrors st; loading := loading st;
         submitting := submitting st; error := m; success := success st;
         event := event st; eventDisabled := eventDisabled st;
         companyDisabled := companyDisabled st |}
  | setSuccess b =>
      {| formData := formData st; formErrors := formErrors st; loading := loading st;
         submitting := submitting st; error := error st; success := b;
         event := event st; eventDisabled := eventDisabled st;
         companyDisabled := companyDisabled st |}
  | setEvent e =>
      {| formData := formData st; formErrors := formErrors st; loading := loading st;
         submitting := submitting st; error := error st; success := success st;
         event := Some e; eventDisabled := eventDisabled st;
         companyDisabled := companyDisabled st |}
  | setEventDisabled b =>
      {| formData := formData st; formErrors := formErrors st; loading := loading st;
         submitting := submitting st; error := error st; success := success st;
         event := event st; eventDisabled := b;
         companyDisabled := companyDisabled st |}
  | setCompanyDisabled b =>
      {| formData := formData st; formErrors := formErrors st; loading := loading st;
         submitting := submitting st; error := error st; success := success st;
         event := event st; eventDisabled := eventDisabled st;
         companyDisabled := b |}
  end.

(** The state once React has processed a queue of setter calls. *)
Definition applyUpdates (calls : list Update) (st : PageState) : PageState :=
  fold_left applyUpdate calls st.

(** ** Exceptions and setter calls

    A computation logs the setter calls it makes and either throws or
    returns a value. *)

Inductive exn : Type := Error (message : string).

Definition message (e : exn) : string := match e with Error m => m end.

Module Eff.

Definition t (A : Type) : Type := (list Update * (exn + A))%type.

Definition ret {A} (a : A) : t A := ([], inr a).

Definition bind {A B} (m : t A) (k : A -> t B) : t B :=
  match m with
  | (calls, inl e) => (calls, inl e)
  | (calls, inr a) => let '(calls', r) := k a in (calls ++ calls', r)
  end.

(** A setter call. *)
Definition call (u : Update) : t unit := ([u], inr tt).

Definition throw {A} (e : exn) : t A := ([], inl e).

(** [await p]: the value of a settled promise, or its rejection thrown. *)
Definition await {A} (p : exn + A) : t A := ([], p).

(** [if (b) { m }] *)
Definition when (b : bool) (m : t unit) : t unit := if b then m else ret tt.

(** [try { body } catch (e) { handler e } finally { final }] *)
Definition tryCatchFinally (body : t unit) (handler : exn -> t unit) (final : t unit)
  : t unit :=
  let caught :=
    match body with
    | (calls, inl e) => let '(calls', r) := handler e in (calls ++ calls', r)
    | (calls, inr tt) => (calls, inr tt)
    end in
  match caught, final with
  | (calls, _), (calls', inl e) => (calls ++ calls', inl e)
  | (calls, r), (calls', inr tt) => (calls ++ calls', r)
  end.

(** The setter calls of a whole computation. *)
Definition calls {A} (m : t A) : list Update := fst m.

End Eff.

Declare Scope eff_scope.
Delimit Scope eff_scope with eff.
Bind Scope eff_scope with Eff.t.
Notation "x <- m ;; k" := (Eff.bind m (fun x => k))
  (at level 20, m at level 99, k at level 200, only parsing) : eff_scope.
Notation "m ;; k" := (Eff.bind m (fun _ => k))
  (at level 100, k at level 200, only parsing, right associativity) : eff_scope.
Local Open Scope eff_scope.

(** ** Network *)

(** What the page reads of a [Response]: [ok], [status] and the promise of
    [json()], which is rejected when the body is not of the expected JSON
    shape. *)
Record Response (B : Type) : Type := {
  ok : bool;
  status : Z;
  json : exn + B
}.
Arguments ok {B} _.
Arguments status {B} _.
Arguments json {B} _.

(** The promise returned by [fetch]: rejected, or resolved with a response. *)
Definition Fetched (B : Type) : Type := (exn + Response B)%type.

(** The [events] array of the listing body. *)
Definition Listing : Type := Fetched (list Event.t).

(** The [error] property of the body of a registration response. *)
Definition Registered : Type := Fetched (option string).

(** The argument of the registration [fetch]; [body] is the object given to
    [JSON.stringify]. *)
Record Request : Type := {
  url : string;
  method : string;
  body : gmap string string
}.

(** ** The listing request (page.tsx, line 68) *)

Module Uri.

(** The characters [encodeURIComponent] leaves as they are. *)
Definition unreserved : list ascii :=
  Js.units "ABCDEFGHIJKLMNOPQRSTUVWXYZabcdefghijklmnopqrstuvwxyz0123456789-_.!~*'()".

Definition hexDigit (n : N) : ascii :=
  nth (N.to_nat n) (Js.units "0123456789ABCDEF") "0"%char.

(** [%XX] for one byte. *)
Definition escape (byte : N) : string :=
  String "%" (String (hexDigit (byte / 16)) (String (hexDigit (byte mod 16)) "")).

(** One code unit below U+0100: itself when unreserved, else the escapes of
    its UTF-8 bytes, one below U+0080 and two from there on. *)
Definition encodeUnit (c : ascii) : string :=
  if existsb (Ascii.eqb c) unreserved then String c ""
  else if (Js.code c <? 128)%N then escape (Js.code c)
  else escape (192 + Js.code c / 64) +:+ escape (128 + Js.code c mod 64).

(** [encodeURIComponent(s)] *)
Fixpoint encodeURIComponent (s : string) : string :=
  match s with
  | EmptyString => EmptyString
  | String c s' => encodeUnit c +:+ encodeURIComponent s'
  end.

End Uri.

(** The argument of the [fetch] of [fetchEventDetails]. *)
Definition listingUrl (p : Props) : string :=
  "/api/events?company=" +:+ Uri.encodeURIComponent (companyName p).

(** ** The event resolver (page.tsx, lines 62-116) *)

(** [data.events.find(e => e.id.trim().toLowerCase() === normalizedEventId)] *)
Definition findEvent (eventId : string) (events : list Event.t) : option Event.t :=
  let normalizedEventId := Js.toLowerCase (Js.trim eventId) in
  List.find
    (fun e => String.eqb (Js.toLowerCase (Js.trim (Event.id e))) normalizedEventId)
    events.

(** [x === 'disabled'] for an optional string property. *)
Definition isDisabled (x : option string) : bool :=
  match x with
  | Some s => String.eqb s "disabled"
  | None => false
  end.

(** [fetchEventDetails], run by the effect of a render whose state was
    [snap]: the [companyDisabled] read in the [catch] block is the one of
    that render. *)
Definition fetchEventDetails (p : Props) (snap : PageState) (reply : Listing)
  : Eff.t unit :=
  Eff.tryCatchFinally
    (Eff.call (setLoading true) ;;
     response <- Eff.await reply ;;
     Eff.when (negb (ok response))
       (Eff.when (status response =? 403)%Z
          (Eff.call (setCompanyDisabled true) ;;
           Eff.throw (Error "Company is disabled")) ;;
        Eff.throw (Error "Failed to fetch event details")) ;;
     events <- Eff.await (json response) ;;
     match findEvent (eventId p) events with
     | None => Eff.throw (Error "Event not found")
     | Some foundEvent =>
         Eff.call (setEvent foundEvent) ;;
         Eff.when (isDisabled (Event.status foundEvent))
           (Eff.call (setEventDisabled true)) ;;
         Eff.when (isDisabled (Event.companyStatus foundEvent))
           (Eff.call (setCompanyDisabled true))
     end)
    (fun _ =>
       Eff.when (negb (companyDisabled snap))
         (Eff.call (setError "Event not found or no longer available")))
    (Eff.call (setLoading false)).

(** One run of the effect. *)
Definition runEffect (p : Props) (reply : Listing) (st : PageState) : PageState :=
  applyUpdates (Eff.calls (fetchEventDetails p st reply)) st.

(** [useEffect(..., [companyName, eventId, companyDisabled])] from the first
    render: the effect runs once, and once more when its run has changed
    [companyDisabled]; [first] and [second] are what the listing endpoint
    answers to the two requests. *)
Definition load (p : Props) (first second : Listing) : PageState :=
  let st1 := runEffect p first initialState in
  if Bool.eqb (companyDisabled st1) (companyDisabled initialState) then st1
  else runEffect p second st1.

(** ** Event handlers *)

(** A call of an event handler either returns after its setter calls, or
    issues the registration request and goes on when the request settles. *)
Inductive Outcome : Type :=
| Returned (calls : list Update)
| Awaiting (calls : list Update) (request : Request)
    (settled : Registered -> list Update).

(** The setter calls made before the handler returns or awaits. *)
Definition callsOf (o : Outcome) : list Update :=
  match o with
  | Returned calls => calls
  | Awaiting calls _ _ => calls
  end.

(** The network call of the handler, if it makes one. *)
Definition requestOf (o : Outcome) : option Request :=
  match o with
  | Returned _ => None
  | Awaiting _ request _ => Some request
  end.

(** The setter calls made once the request has settled. *)
Definition settledOf (o : Outcome) (reply : Registered) : list Update :=
  match o with
  | Returned _ => []
  | Awaiting _ _ settled => settled reply
  end.

(** ** The change handler (page.tsx, lines 143-155) *)

Definition handleChange (name value : string) : Outcome :=
  let errorMessage := validateField name value in
  Returned
    [ setFormData (fun prev => <[name := value]> prev);
      setFormErrors (fun prev => <[name := errorMessage]> prev) ].

(** ** The submit handler (page.tsx, lines 157-237) *)

(** The body of the [forEach] over [Object.entries(formData)]: the
    accumulator is the pair of [errors] and [hasErrors]. *)
Definition validateEntry (key value : string) (acc : gmap string string * bool)
  : gmap string string * bool :=
  if String.eqb key "gender" || String.eqb key "status" then acc
  else
    let error := validateField key value in
    if negb (String.eqb error "") then (<[key := error]> (fst acc), true)
    else acc.

Definition validateAll (formData : gmap string string) : gmap string string * bool :=
  map_fold validateEntry (∅, false) formData.

(** [{ companyName, eventName: event.id, ...formData }] *)
Definition registrationBody (p : Props) (event : Event.t)
    (formData : gmap string string) : gmap string string :=
  formData ∪ <["eventName" := Event.id event]> (<["companyName" := companyName p]> ∅).

(** [errorData.error || 'Failed to register for event']: the [error]
    property of the body when it is a non-empty string. *)
Definition failureMessage (errorData : option string) : string :=
  match errorData with
  | Some (String c m) => String c m
  | _ => "Failed to register for event"
  end.

(** The handler after its [await fetch(...)]: the [try] block from the
    response on, with its [catch] and [finally]. *)
Definition submitSettled (reply : Registered) : Eff.t unit :=
  Eff.tryCatchFinally
    (response <- Eff.await reply ;;
     Eff.when (negb (ok response))
       (errorData <- Eff.await (json response) ;;
        Eff.throw (Error (failureMessage errorData))) ;;
     Eff.call (setSuccess true) ;;
     Eff.call (setFormData (fun _ => emptyFormData)) ;;
     Eff.call (setFormErrors (fun _ => ∅)))
    (fun error => Eff.call (setError (message error)))
    (Eff.call (setSubmitting false)).

Definition handleSubmit (p : Props) (snap : PageState) : Outcome :=
  match event snap with
  | None =>
      Returned
        [setError "Event information is missing. Please refresh the page and try again."]
  | Some event =>
      if eventDisabled snap || companyDisabled snap then
        Returned [setError "Registration is currently disabled for this event."]
      else
        let '(errors, hasErrors) := validateAll (formData snap) in
        if hasErrors then Returned [setFormErrors (fun _ => errors)]
        else
          Awaiting
            [setFormErrors (fun _ => errors); setSubmitting true; setError ""]
            {| url := "/api/events/register";
               method := "POST";
               body := registrationBody p event (formData snap) |}
            (fun reply => Eff.calls (submitSettled reply))
  end.

(** ** Rendering (page.tsx, lines 239-632) *)

(** Which tree the component returns. *)
Inductive View : Type :=
| LoadingView                                  (* lines 239-245 *)
| ErrorView (message : string)                 (* lines 247-258 *)
| DisabledView (heading : string)              (* lines 260-287 *)
| SuccessView                                  (* lines 311-358 *)
| FormView (banner : string) (disabled : bool) (* lines 359-625 *).

Definition render (st : PageState) : View :=
  if loading st then LoadingView
  else if negb (String.eqb (error st) "") && negb (submitting st) then ErrorView (error st)
  else if eventDisabled st || companyDisabled st then
    DisabledView (if eventDisabled st then "Registration Disabled" else "Company Inactive")
  else if success st then SuccessView
  else FormView (error st) (submitting st).

(** The names of the controls of the form, which are the [name]s a change
    event can carry. *)
Definition inputNames : list string :=
  ["name"; "phone"; "email"; "gender"; "college"; "status"; "nationalId"].

(** The states of the specification, read off the rendered tree. *)
Inductive SubmissionState : Type :=
| Loading | FetchError | EventDisabled | OrgDisabled | Editing | Submitting | Success.

Definition submissionState (st : PageState) : SubmissionState :=
  match render st with
  | LoadingView => Loading
  | ErrorView _ => FetchError
  | DisabledView _ => if eventDisabled st then EventDisabled else OrgDisabled
  | SuccessView => Success
  | FormView _ true => Submitting
  | FormView _ false => Editing
  end.

(** ** The page as a transition system *)

(** The state after a change event. *)
Definition changed (name value : string) (st : PageState) : PageState :=
  applyUpdates (callsOf (handleChange name value)) st.

(** The state when [handleSubmit] has returned, or awaits its request. *)
Definition submitted (p : Props) (st : PageState) : PageState :=
  applyUpdates (callsOf (handleSubmit p st)) st.

(** The state when the request of that call, if any, has settled. *)
Definition settled (p : Props) (st : PageState) (reply : Registered) : PageState :=
  applyUpdates (settledOf (handleSubmit p st) reply) (submitted p st).

(** The states the page goes through, for given answers of the listing
    endpoint.  The form is on screen with its controls enabled in the
    editing state only, so that is where change and submit events occur;
    a change event carries the name of one of the controls. *)
Inductive reachable (p : Props) (first second : Listing) : PageState -> Prop :=
| reach_load :
    reachable p first second (load p first second)
| reach_change st name value :
    reachable p first second st ->
    submissionState st = Editing ->
    In name inputNames ->
    reachable p first second (changed name value st)
| reach_submitted st :
    reachable p first second st ->
    submissionState st = Editing ->
    reachable p first second (submitted p st)
| reach_settled st reply :
    reachable p first second st ->
    submissionState st = Editing ->
    reachable p first second (settled p st reply).

(** ** Vocabulary of the statements *)

(** The free-text fields, which are the validated ones. *)
Definition textFields : list string :=
  ["name"; "phone"; "email"; "college"; "nationalId"].

(** What the submit handler records for one entry of [formData]: nothing
    for the two select fields and for a valid value, the message of
    [validateField] otherwise. *)
Definition fieldError (key value : string) : option string :=
  if String.eqb key "gender" || String.eqb key "status" then None
  else if String.eqb (validateField key value) "" then None
  else Some (validateField key value).

(** A free-text value that is empty after trimming or fails the pattern of
    its field. *)
Definition invalid (key value : string) : Prop :=
  Js.trim value = "" \/
  (key = "phone" /\ test phonePattern value = false) \/
  (key = "email" /\ test emailPattern value = false).

(** The comparison of the resolver: equal after trimming and lowercasing
    both sides. *)
Definition sameIdentifier (eventId : string) (e : Event.t) : Prop :=
  Js.toLowerCase (Js.trim (Event.id e)) = Js.toLowerCase (Js.trim eventId).

(** A listing answer with a success status and a well-formed body. *)
Definition listed (events : list Event.t) (status : Z) : Listing :=
  inr {| ok := true; status := status; json := inr events |}.

(** A string of 10 to 15 code units, all of them digits. *)
Definition phoneShape (s : string) : Prop :=
  (10 <= String.length s /\ String.length s <= 15) /\
  forall c, In c (Js.units s) -> In c Js.digits.

(** The shape [/^[^\s@]+@[^\s@]+\.[^\s@]+$/] accepts: one "@" that splits
    [s] into a non-empty local part and a domain, no white space anywhere,
    and in the domain a "." with something before it and something after. *)
Definition emailShape (s : string) : Prop :=
  exists local domain : string,
    s = local +:+ "@" +:+ domain /\
    local <> "" /\
    ~ In "@"%char (Js.units local) /\
    ~ In "@"%char (Js.units domain) /\
    (forall c, In c (Js.units s) -> ~ In c Js.whiteSpace) /\
    exists a b : string, domain = a +:+ "." +:+ b /\ a <> "" /\ b <> "".

(** The shape as the specification words it: exactly one "@", which splits
    [s] into a local part and a domain, and a "." in the domain. *)
Definition specEmailShape (s : string) : Prop :=
  exists local domain : string,
    s = local +:+ "@" +:+ domain /\
    ~ In "@"%char (Js.units local) /\
    ~ In "@"%char (Js.units domain) /\
    In "."%char (Js.units domain).

(** A listing answer with a failure status. *)
Definition refused (status : Z) (body : exn + list Event.t) : Listing :=
  inr {| ok := false; status := status; json := body |}.

(** A registration answer with a success status. *)
Definition accepted (status : Z) (body : exn + option string) : Registered :=
  inr {| ok := true; status := status; json := body |}.

(** A registration answer with a failure status and a JSON body. *)
Definition rejected (status : Z) (errorData : option string) : Registered :=
  inr {| ok := false; status := status; json := inr errorData |}.

(** What holds of every state the page goes through: [formData] has the
    seven fields of the form and no other; a state without an event shows
    the error view; and an event held while [companyDisabled] is unset is
    the one the resolver selected in the first answer of the listing. *)
Definition invariant (p : Props) (first : Listing) (st : PageState) : Prop :=
  (forall k, is_Some (formData st !! k) <-> In k inputNames) /\
  (event st = None -> error st <> "" /\ submitting st = false) /\
  (forall ev, event st = Some ev -> companyDisabled st = false ->
      exists events status,
        first = listed events status /\ findEvent (eventId p) events = Some ev).

(** A string with nothing but white space, the empty string included:
    the strings [value.trim() === ''] holds of. *)
Definition blank (s : string) : Prop :=
  forall c, In c (Js.units s) -> In c Js.whiteSpace.

(** The listing answers from which the effect throws without setting
    [companyDisabled]: a rejected request, a failure status other than 403,
    a body that is not the expected JSON, and a collection in which [find]
    selects nothing. *)
Definition unavailable (p : Props) (reply : Listing) : Prop :=
  match reply with
  | inl _ => True
  | inr response =>
      if ok response then
        match json response with
        | inl _ => True
        | inr events => findEvent (eventId p) events = None
        end
      else status response <> 403%Z
  end.

(** The message of the [catch] block of [fetchEventDetails]. *)
Definition notAvailable : string := "Event not found or no longer available".

(** What the handlers keep of the cells, beyond [invariant]: the page does
    not load again and the event and the two flags stay those of loading;
    while a request is in flight there is no error message and no success;
    a success leaves the cleared form; and every entry of the error map is
    the message of the validator for the value the form holds under the
    same name. *)
Definition settledCells (loaded st : PageState) : Prop :=
  loading st = false /\
  event st = event loaded /\
  eventDisabled st = eventDisabled loaded /\
  companyDisabled st = companyDisabled loaded /\
  (submitting st = true -> error st = "" /\ success st = false) /\
  (success st = true ->
     formData st = emptyFormData /\ formErrors st = ∅ /\
     error st = "" /\ submitting st = false) /\
  (forall k e, formErrors st !! k = Some e ->
     exists v, formData st !! k = Some v /\ e = validateField k v).

(** The value of a hexadecimal digit. *)
Definition hexValue (c : ascii) : N :=
  match find (fun i => Ascii.eqb (Uri.hexDigit i) c)
             [0; 1; 2; 3; 4; 5; 6; 7; 8; 9; 10; 11; 12; 13; 14; 15]%N with
  | Some i => i
  | None => 0
  end.

(** Reads back a string of unreserved characters and escapes as
    [Uri.encodeURIComponent] writes them; on other strings its value is of
    no interest. *)
Fixpoint unescape (s : string) : string :=
  match s with
  | EmptyString => EmptyString
  | String "%" (String "C" (String h (String "%" (String h1 (String h2 s'))))) =>
      String (ascii_of_N (hexValue h * 64 + (hexValue h1 - 8) * 16 + hexValue h2))
        (unescape s')
  | String "%" (String h1 (String h2 s')) =>
      String (ascii_of_N (hexValue h1 * 16 + hexValue h2)) (unescape s')
  | String c s' => String c (unescape s')
  end.

(** The capital letters of Latin-1 from U+00C0 to U+00DE, the
    multiplication sign U+00D7 left out, and their lower-case letters from
    U+00E0 to U+00FE, in the same order. *)
Definition latinCapitals : list ascii :=
  [
   "192"; "193"; "194"; "195"; "196"; "197"; "198"; "199"; "200"; "201"; "202";
   "203"; "204"; "205"; "206"; "207"; "208"; "209"; "210"; "211"; "212"; "213";
   "214"; "216"; "217"; "218"; "219"; "220"; "221"; "222"
  ]%char.

Definition latinSmalls : list ascii :=
  [
   "224"; "225"; "226"; "227"; "228"; "229"; "230"; "231"; "232"; "233"; "234";
   "235"; "236"; "237"; "238"; "239"; "240"; "241"; "242"; "243"; "244"; "245";
   "246"; "248"; "249"; "250"; "251"; "252"; "253"; "254"
  ]%char.

(** The capital letters below U+0100, each with its lower-case letter. *)
Definition lowerCaseTable : list (ascii * ascii) :=
  combine (Js.units "ABCDEFGHIJKLMNOPQRSTUVWXYZ" ++ latinCapitals)
          (Js.units "abcdefghijklmnopqrstuvwxyz" ++ latinSmalls).

(** The lower-case letter of a capital of the table, every other character
    itself. *)
Definition foldCase (c : ascii) : ascii :=
  match find (fun entry => Ascii.eqb (fst entry) c) lowerCaseTable with
  | Some entry => snd entry
  | None => c
  end.

(** Two strings that differ in the case of their letters at most. *)
Definition sameLetters (a b : string) : Prop :=
  Forall2 (fun c d => foldCase c = foldCase d) (Js.units a) (Js.units b).

(** A string that neither starts nor ends with white space. *)
Definition noEdgeSpace (core : string) : Prop :=
  (forall c, head (Js.units core) = Some c -> ~ In c Js.whiteSpace) /\
  (forall c, last (Js.units core) = Some c -> ~ In c Js.whiteSpace).

(** [core] is [s] without its surrounding white space: [s] is [core]
    between two runs of white space, and [core] has none at its ends. *)
Definition trimmedTo (s core : string) : Prop :=
  exists lead trail,
    s = lead +:+ core +:+ trail /\ blank lead /\ blank trail /\ noEdgeSpace core.

(** The comparison in the words of the specification: the two identifiers
    are equal after trimming surrounding white space and lowercasing both
    sides.  It is written without [Js.trim] and [Js.toLowerCase]. *)
Definition specSameIdentifier (requested stored : string) : Prop :=
  exists r s, trimmedTo requested r /\ trimmedTo stored s /\ sameLetters r s.

(** The claim about the resolver read event by event: an event of the
    collection is the one selected exactly when its identifier matches. *)
Definition selectsEveryMatch (requested : string) (events : list Event.t) : Prop :=
  forall e, In e events ->
    (findEvent requested events = Some e <-> specSameIdentifier requested (Event.id e)).

(** The states the page rests in from its first render on: waiting for the
    first answer of the listing; after the first run of the effect; waiting
    for the second answer when that run has changed [companyDisabled], the
    second run having called [setLoading(true)]; and the states after
    loading. *)
Inductive visited (p : Props) (first second : Listing) : PageState -> Prop :=
| visit_mount :
    visited p first second initialState
| visit_first :
    visited p first second (runEffect p first initialState)
| visit_rerun :
    companyDisabled (runEffect p first initialState) <> companyDisabled initialState ->
    visited p first second (applyUpdates [setLoading true] (runEffect p first initialState))
| visit_reachable st :
    reachable p first second st -> visited p first second st.

(** ** Sample data *)

(** The event of the scenario of the specification: stored under a
    lower-case identifier, with neither status property. *)
Definition launchParty : Event.t := {|
  Event.id := "launch-party";
  Event.name := "Launch Party";
  Event.image := None;
  Event.description := "";
  Event.date := "2025-01-01";
  Event.registrations := 0;
  Event.status := None;
  Event.companyStatus := None
|}.

(** A second event whose identifier differs from that of [launchParty] in
    case only. *)
Definition launchPartyUpper : Event.t := {|
  Event.id := "LAUNCH-PARTY";
  Event.name := "Launch Party (reissued)";
  Event.image := None;
  Event.description := "";
  Event.date := "2025-01-01";
  Event.registrations := 0;
  Event.status := None;
  Event.companyStatus := None
|}.

Definition acme : Props := {| companyName := "Acme"; eventId := " Launch-Party " |}.

(** The page of [acme] once the listing has answered with [launchParty]. *)
Definition acmeLoaded : PageState :=
  load acme (listed [launchParty] 200) (listed [launchParty] 200).

(** The valid submission of the specification, typed field by field. *)
Definition adaTyped : PageState :=
  changed "nationalId" "29912345678901"
    (changed "college" "MIT"
       (changed "gender" "female"
          (changed "email" "a@b.co"
             (changed "phone" "1234567890"
                (changed "name" "Ada Lovelace" acmeLoaded))))).

(** * Properties *)

(** ** Strings *)

Section StringFacts.

Lemma units_app (a b : string) : Js.units (a +:+ b) = Js.units a ++ Js.units b.
Proof.
  induction a as [|c a IH]; [reflexivity|].
  unfold Js.units in *. cbn. now rewrite <- IH.
Qed.

Lemma units_inj (a b : string) : Js.units a = Js.units b -> a = b.
Proof.
  intros H. rewrite <- (String.string_of_list_ascii_of_string a).
  rewrite <- (String.string_of_list_ascii_of_string b).
  unfold Js.units in H. now rewrite H.
Qed.

Lemma units_of_list (w : list ascii) : Js.units (String.string_of_list_ascii w) = w.
Proof. apply String.list_ascii_of_string_of_list_ascii. Qed.

Lemma units_nil (s : string) : Js.units s = [] <-> s = "".
Proof. destruct s; cbn; split; congruence. Qed.

Lemma units_length (s : string) : length (Js.units s) = String.length s.
Proof. induction s as [|c s IH]; cbn; [reflexivity|]. now f_equal. Qed.

Lemma trimEnd_blank (s : string) :
  Js.trimEnd s = "" <-> forallb Js.isWhiteSpace (Js.units s) = true.
Proof.
  induction s as [|c s IH]; cbn; [tauto|].
  destruct (Js.trimEnd s) eqn:E.
  - destruct (Js.isWhiteSpace c); cbn.
    + split; [intros _; now apply IH | reflexivity].
    + split; [discriminate | discriminate].
  - split; [discriminate|].
    intros [_ H]%andb_true_iff. apply IH in H. discriminate.
Qed.

Lemma trimStart_blank (s : string) :
  Js.trimStart s = "" <-> forallb Js.isWhiteSpace (Js.units s) = true.
Proof.
  induction s as [|c s IH]; cbn; [tauto|].
  destruct (Js.isWhiteSpace c); cbn; [exact IH|].
  split; discriminate.
Qed.

Lemma trimStart_head (s : string) c t :
  Js.trimStart s = String c t -> Js.isWhiteSpace c = false.
Proof.
  induction s as [|d s IH]; cbn; [discriminate|].
  destruct (Js.isWhiteSpace d) eqn:E; [exact IH|].
  intros [= <- _]. exact E.
Qed.

(** [value.trim() === ''] holds exactly for the strings made of white
    space only. *)
Lemma trim_blank (s : string) :
  Js.trim s = "" <-> forallb Js.isWhiteSpace (Js.units s) = true.
Proof.
  unfold Js.trim. rewrite <- trimStart_blank.
  destruct (Js.trimStart s) as [|c t] eqn:E; [now cbn|].
  apply trimStart_head in E.
  split; [|discriminate].
  rewrite trimEnd_blank. cbn. rewrite E. discriminate.
Qed.

Lemma existsb_eqb_In (c : ascii) (l : list ascii) :
  existsb (Ascii.eqb c) l = true <-> In c l.
Proof.
  rewrite existsb_exists. split.
  - intros (x & Hx & ->%Ascii.eqb_eq). exact Hx.
  - intros H. exists c. split; [exact H | apply Ascii.eqb_refl].
Qed.

Lemma isDigit_In c : Js.isDigit c = true <-> In c Js.digits.
Proof. apply existsb_eqb_In. Qed.

Lemma isWhiteSpace_In c : Js.isWhiteSpace c = true <-> In c Js.whiteSpace.
Proof. apply existsb_eqb_In. Qed.

Lemma isWhiteSpace_not_In c : Js.isWhiteSpace c = false <-> ~ In c Js.whiteSpace.
Proof. rewrite <- isWhiteSpace_In. destruct (Js.isWhiteSpace c); split; congruence. Qed.

End StringFacts.

Example trim_sample : Js.trim "  Ada Lovelace  " = "Ada Lovelace".
Proof. reflexivity. Qed.

Example toLowerCase_sample : Js.toLowerCase (Js.trim " Launch-Party ") = "launch-party".
Proof. reflexivity. Qed.

(** ** The derivative matcher decides the language *)

Module RegexFacts.

Lemma nullable_Matches r : nullable r = true <-> Matches r [].
Proof.
  induction r as [| |p|r1 IH1 r2 IH2|r1 IH1 r2 IH2|r IH]; cbn.
  - split; [discriminate|]. inversion 1.
  - split; [constructor|reflexivity].
  - split; [discriminate|]. inversion 1.
  - rewrite andb_true_iff, IH1, IH2. split.
    + intros [H1 H2]. apply (MCat _ _ [] [] H1 H2).
    + inversion 1 as [| |? ? w1 w2 H1 H2 E1 E2| | | |]; subst.
      apply app_eq_nil in E2 as [-> ->]. tauto.
  - rewrite orb_true_iff, IH1, IH2. split.
    + intros [H|H]; [now apply MAltL | now apply MAltR].
    + inversion 1; subst; tauto.
  - split; [constructor|reflexivity].
Qed.

(** A non-empty word of [r*] starts with a non-empty word of [r]. *)
Lemma Matches_Star_cons r c w :
  Matches (Star r) (c :: w) ->
  exists w1 w2, w = w1 ++ w2 /\ Matches r (c :: w1) /\ Matches (Star r) w2.
Proof.
  intros H. remember (Star r) as r' eqn:Er. remember (c :: w) as w' eqn:Ew.
  revert w Ew.
  induction H as [| | | | | |r0 w1 w2 H1 _ H2 IH2]; intros u Eu; try discriminate.
  injection Er as ->.
  destruct w1 as [|d w1]; cbn in Eu.
  - now apply IH2.
  - injection Eu as -> <-. now exists w1, w2.
Qed.

Lemma deriv_Matches c r : forall w, Matches (deriv c r) w <-> Matches r (c :: w).
Proof.
  induction r as [| |p|r1 IH1 r2 IH2|r1 IH1 r2 IH2|r IH]; intros w; cbn.
  - split; inversion 1.
  - split; inversion 1.
  - destruct (p c) eqn:E; split; inversion 1; subst.
    + now constructor.
    + constructor.
    + congruence.
  - assert (Hcat : Matches (Cat (deriv c r1) r2) w ->  Matches (Cat r1 r2) (c :: w)).
    { inversion 1 as [| |? ? w1 w2 H1 H2| | | |]; subst.
      apply IH1 in H1. apply (MCat _ _ (c :: w1) w2 H1 H2). }
    assert (Hinv : Matches (Cat r1 r2) (c :: w) ->
              Matches (Cat (deriv c r1) r2) w \/ (Matches r1 [] /\ Matches r2 (c :: w))).
    { inversion 1 as [| |? ? w1 w2 H1 H2 E1 E2| | | |]; subst.
      destruct w1 as [|d w1]; cbn in E2.
      - subst. now right.
      - injection E2 as -> <-. left. constructor; [now apply IH1 | assumption]. }
    destruct (nullable r1) eqn:N.
    + split.
      * inversion 1; subst; [now apply Hcat|].
        apply nullable_Matches in N. apply (MCat _ _ [] (c :: w) N). now apply IH2.
      * intros [H|[_ H]]%Hinv; [now apply MAltL|]. apply MAltR. now apply IH2.
    + split; [exact Hcat|].
      intros [H|[H _]]%Hinv; [assumption|].
      apply nullable_Matches in H. congruence.
  - split.
    + inversion 1; subst; [apply MAltL; now apply IH1 | apply MAltR; now apply IH2].
    + inversion 1; subst; [apply MAltL; now apply IH1 | apply MAltR; now apply IH2].
  - split.
    + inversion 1 as [| |? ? w1 w2 H1 H2| | | |]; subst.
      apply IH in H1. apply (MStarCons _ (c :: w1) w2 H1 H2).
    + intros (w1 & w2 & -> & H1 & H2)%Matches_Star_cons.
      constructor; [now apply IH | assumption].
Qed.

Theorem accepts_Matches r w : accepts r w = true <-> Matches r w.
Proof.
  revert r. induction w as [|c w IH]; intros r; cbn.
  - apply nullable_Matches.
  - rewrite IH. apply deriv_Matches.
Qed.

(** *** Languages of the building blocks of the two patterns *)

Lemma Matches_Cat r1 r2 w :
  Matches (Cat r1 r2) w <->
  exists w1 w2, w = w1 ++ w2 /\ Matches r1 w1 /\ Matches r2 w2.
Proof.
  split.
  - inversion 1; subst; eauto.
  - intros (w1 & w2 & -> & H1 & H2). now constructor.
Qed.

Lemma Matches_Class p w : Matches (Class p) w <-> exists c, w = [c] /\ p c = true.
Proof.
  split.
  - inversion 1; subst; eauto.
  - intros (c & -> & H). now constructor.
Qed.

Lemma Matches_Star_Class p w : Matches (Star (Class p)) w <-> forallb p w = true.
Proof.
  split.
  - intros H. remember (Star (Class p)) as r eqn:Er.
    induction H as [| | | | | |r0 w1 w2 H1 _ _ IH2]; try discriminate; [reflexivity|].
    injection Er as ->. apply Matches_Class in H1 as (c & -> & Hc).
    cbn. rewrite Hc. now apply IH2.
  - induction w as [|c w IH]; cbn; [constructor|].
    intros [Hc Hw]%andb_true_iff.
    apply (MStarCons _ [c] w); [now constructor | now apply IH].
Qed.

Lemma Matches_Plus_Class p w :
  Matches (Plus (Class p)) w <-> w <> [] /\ forallb p w = true.
Proof.
  unfold Plus. rewrite Matches_Cat. split.
  - intros (w1 & w2 & -> & (c & -> & Hc)%Matches_Class & H2%Matches_Star_Class).
    cbn. now rewrite Hc.
  - destruct w as [|c w]; [now intros [? _]|].
    cbn. intros [_ [Hc Hw]%andb_true_iff].
    exists [c], w. rewrite Matches_Class, Matches_Star_Class. eauto.
Qed.

Lemma Matches_Times_Class p n : forall w,
  Matches (Times n (Class p)) w <-> length w = n /\ forallb p w = true.
Proof.
  induction n as [|n IH]; intros w; cbn.
  - split.
    + inversion 1. now split.
    + intros [->%length_zero_iff_nil _]. constructor.
  - rewrite Matches_Cat. split.
    + intros (w1 & w2 & -> & (c & -> & Hc)%Matches_Class & [Hl Hw]%IH).
      cbn. rewrite Hc, Hl. now split.
    + destruct w as [|c w]; [now intros [? _]|].
      cbn. intros [[= Hl] [Hc Hw]%andb_true_iff].
      exists [c], w. rewrite Matches_Class, IH. repeat split; eauto.
Qed.

Lemma Matches_Times_Opt_Class p n : forall w,
  Matches (Times n (Opt (Class p))) w <-> length w <= n /\ forallb p w = true.
Proof.
  induction n as [|n IH]; intros w; cbn.
  - split.
    + inversion 1. now split.
    + intros [Hl _]. destruct w; [constructor | cbn in Hl; lia].
  - rewrite Matches_Cat. split.
    + intros (w1 & w2 & -> & H1 & [Hl Hw]%IH).
      inversion H1 as [| | |? ? ? Hc|? ? ? He| |]; subst.
      * apply Matches_Class in Hc as (c & -> & Hc). cbn. rewrite Hc. split; [lia|assumption].
      * inversion He; subst. cbn. split; [lia|assumption].
    + intros [Hl Hw]. destruct w as [|c w].
      * exists [], []. split; [reflexivity|]. split.
        -- apply MAltR. constructor.
        -- apply IH. cbn. split; [lia|reflexivity].
      * cbn in Hl, Hw. apply andb_true_iff in Hw as [Hc Hw].
        exists [c], w. split; [reflexivity|]. split.
        -- apply MAltL. now constructor.
        -- apply IH. split; [lia|assumption].
Qed.

(** [c{lo,hi}] over a class: between [lo] and [hi] code units of it. *)
Lemma Matches_Repeat_Class p lo hi w :
  lo <= hi ->
  Matches (Repeat lo hi (Class p)) w <->
  (lo <= length w /\ length w <= hi) /\ forallb p w = true.
Proof.
  intros Hle. unfold Repeat. rewrite Matches_Cat. split.
  - intros (w1 & w2 & -> & [Hl1 Hw1]%Matches_Times_Class & [Hl2 Hw2]%Matches_Times_Opt_Class).
    rewrite length_app, forallb_app, Hw1, Hw2. split; [lia|reflexivity].
  - intros [[Hlo Hhi] Hw].
    exists (firstn lo w), (skipn lo w).
    rewrite firstn_skipn. split; [reflexivity|].
    rewrite <- (firstn_skipn lo w), forallb_app in Hw.
    apply andb_true_iff in Hw as [Hw1 Hw2].
    rewrite Matches_Times_Class, Matches_Times_Opt_Class.
    rewrite length_firstn, length_skipn. repeat split; try assumption; lia.
Qed.

(** The words of [[^\s@]+@[^\s@]+\.[^\s@]+]. *)
Lemma Matches_emailPattern w :
  Matches emailPattern w <->
  exists l a b,
    w = l ++ "@"%char :: a ++ "."%char :: b /\
    (l <> [] /\ forallb notSpaceAt l = true) /\
    (a <> [] /\ forallb notSpaceAt a = true) /\
    (b <> [] /\ forallb notSpaceAt b = true).
Proof.
  unfold emailPattern. split.
  - intros (l & w1 & -> & Hl%Matches_Plus_Class & H1)%Matches_Cat.
    apply Matches_Cat in H1 as (x & w2 & -> & (c & -> & Hc)%Matches_Class & H2).
    apply Matches_Cat in H2 as (a & w3 & -> & Ha%Matches_Plus_Class & H3).
    apply Matches_Cat in H3 as (y & b & -> & (d & -> & Hd)%Matches_Class & Hb%Matches_Plus_Class).
    apply Ascii.eqb_eq in Hc, Hd. subst c d.
    exists l, a, b. cbn. auto.
  - intros (l & a & b & -> & Hl & Ha & Hb).
    apply Matches_Cat. exists l, ("@"%char :: a ++ "."%char :: b).
    split; [reflexivity|]. split; [now apply Matches_Plus_Class|].
    apply (MCat _ _ ["@"%char] (a ++ "."%char :: b)); [now constructor|].
    apply Matches_Cat. exists a, ("."%char :: b).
    split; [reflexivity|]. split; [now apply Matches_Plus_Class|].
    apply (MCat _ _ ["."%char] b); [now constructor | now apply Matches_Plus_Class].
Qed.

End RegexFacts.

(** ** The field validator *)

Lemma phonePattern_shape (s : string) : test phonePattern s = true <-> phoneShape s.
Proof.
  unfold test, phonePattern, phoneShape.
  rewrite RegexFacts.accepts_Matches, RegexFacts.Matches_Repeat_Class by lia.
  rewrite units_length, forallb_forall.
  split; intros [Hl Hd]; (split; [exact Hl|]); intros c Hc; now apply isDigit_In, Hd.
Qed.

Lemma digit_not_space c : In c Js.digits -> Js.isWhiteSpace c = false.
Proof. cbn. intros H. decompose [or] H; subst; (reflexivity || contradiction). Qed.

Example validateField_samples :
  validateField "name" "Ada Lovelace" = "" /\
  validateField "name" "   " = "Full name is required" /\
  validateField "phone" "1234567890" = "" /\
  validateField "phone" "" = "Phone number is required" /\
  validateField "phone" "12345 67890" = "Invalid phone number format. Must be 10-15 digits" /\
  validateField "phone" "1234567890123456" = "Invalid phone number format. Must be 10-15 digits" /\
  validateField "email" "a@b.co" = "" /\
  validateField "email" "a@b" = "Invalid email format" /\
  validateField "email" "a@b@c.d" = "Invalid email format" /\
  validateField "email" " " = "Email is required" /\
  validateField "gender" "" = "".
Proof. repeat split; reflexivity. Qed.

(** C2. For every string [s], [validateField('phone', s)] is the empty string
    exactly when [s] is made of 10 to 15 digits and nothing else; for every
    other [s] it is one of the two non-empty phone messages. *)
Theorem validateField_phone (s : string) :
  (validateField "phone" s = "" <-> phoneShape s) /\
  (validateField "phone" s = ""
   \/ validateField "phone" s = "Phone number is required"
   \/ validateField "phone" s = "Invalid phone number format. Must be 10-15 digits").
Proof.
  assert (E : validateField "phone" s =
              if String.eqb (Js.trim s) "" then "Phone number is required"
              else if negb (test phonePattern s)
                   then "Invalid phone number format. Must be 10-15 digits"
                   else "") by reflexivity.
  rewrite E. clear E. split.
  - destruct (String.eqb (Js.trim s) "") eqn:T.
    + split; [discriminate|]. intros [[Hlen _] Hd]. exfalso.
      apply String.eqb_eq, trim_blank in T.
      rewrite <- units_length in Hlen.
      destruct (Js.units s) as [|c w]; [cbn in Hlen; lia|].
      cbn in T. apply andb_true_iff in T as [T _].
      rewrite (digit_not_space c) in T; [discriminate|]. apply Hd. now left.
    + rewrite <- phonePattern_shape.
      destruct (test phonePattern s); cbn; split; congruence.
  - destruct (String.eqb (Js.trim s) ""); [tauto|].
    destruct (test phonePattern s); cbn; tauto.
Qed.

Lemma notSpaceAt_spec c :
  notSpaceAt c = true <-> ~ In c Js.whiteSpace /\ c <> "@"%char.
Proof.
  unfold notSpaceAt.
  rewrite negb_true_iff, orb_false_iff, Ascii.eqb_neq, isWhiteSpace_not_In. reflexivity.
Qed.

Lemma forallb_notSpaceAt w :
  forallb notSpaceAt w = true <->
  (forall c, In c w -> ~ In c Js.whiteSpace) /\ ~ In "@"%char w.
Proof.
  rewrite forallb_forall. split.
  - intros H. split.
    + intros c Hc. now apply notSpaceAt_spec, H.
    + intros Hat. apply H, notSpaceAt_spec in Hat as [_ Hat]. congruence.
  - intros [Hs Hat] c Hc. apply notSpaceAt_spec. split; [now apply Hs|].
    intros ->. contradiction.
Qed.

Lemma emailPattern_shape (s : string) : test emailPattern s = true <-> emailShape s.
Proof.
  unfold test. rewrite RegexFacts.accepts_Matches, RegexFacts.Matches_emailPattern.
  split.
  - intros (l & a & b & Hs & [Hl Lok] & [Ha Aok] & [Hb Bok]).
    apply forallb_notSpaceAt in Lok as [Lsp Lat], Aok as [Asp Aat], Bok as [Bsp Bat].
    set (sl := String.string_of_list_ascii l).
    set (sa := String.string_of_list_ascii a).
    set (sb := String.string_of_list_ascii b).
    assert (Es : s = sl +:+ "@" +:+ (sa +:+ "." +:+ sb)).
    { apply units_inj. rewrite Hs. subst sl sa sb.
      rewrite !units_app, !units_of_list. reflexivity. }
    exists sl, (sa +:+ "." +:+ sb). split; [exact Es|].
    subst sl sa sb. repeat split.
    + intros E%units_nil. now rewrite units_of_list in E.
    + now rewrite units_of_list.
    + rewrite !units_app, !units_of_list. cbn.
      intros [H|[H|H]]%in_app_or; [contradiction|discriminate|contradiction].
    + intros c. rewrite Hs. intros [H|[<-|[H|[<-|H]]%in_app_or]]%in_app_or;
        [now apply Lsp|now apply isWhiteSpace_not_In|now apply Asp
        |now apply isWhiteSpace_not_In|now apply Bsp].
    + eexists _, _. split; [reflexivity|].
      split; intros E%units_nil; now rewrite units_of_list in E.
  - intros (local & domain & -> & Hl & Lat & Dat & Hsp & a & b & -> & Ha & Hb).
    exists (Js.units local), (Js.units a), (Js.units b).
    rewrite !units_app in *. cbn in *. split; [reflexivity|].
    rewrite !units_nil, !forallb_notSpaceAt.
    repeat split; try assumption.
    + intros c Hc. apply Hsp, in_or_app. now left.
    + intros c Hc. apply Hsp, in_or_app. right. right. apply in_or_app. now left.
    + intros Hc. apply Dat, in_or_app. now left.
    + intros c Hc. apply Hsp, in_or_app. right. right. apply in_or_app. right. now right.
    + intros Hc. apply Dat, in_or_app. right. now right.
Qed.

Lemma emailShape_specEmailShape (s : string) : emailShape s -> specEmailShape s.
Proof.
  intros (local & domain & -> & _ & Lat & Dat & _ & a & b & -> & _ & _).
  exists local, (a +:+ "." +:+ b). repeat split; try assumption.
  rewrite !units_app. apply in_or_app. right. now left.
Qed.

(** C3, amended. For every string [s], [validateField('email', s)] is the
    empty string exactly when [s] has one "@" with a non-empty local part
    before it, holds no white space, and its domain holds a "." that has at
    least one character of the domain before it and one after it.  Such an
    [s] has the shape the specification words, and for every other [s] the
    result is one of the two non-empty e-mail messages. *)
Theorem validateField_email (s : string) :
  (validateField "email" s = "" <-> emailShape s) /\
  (validateField "email" s = "" -> specEmailShape s) /\
  (validateField "email" s = ""
   \/ validateField "email" s = "Email is required"
   \/ validateField "email" s = "Invalid email format").
Proof.
  assert (E : validateField "email" s =
              if String.eqb (Js.trim s) "" then "Email is required"
              else if negb (test emailPattern s) then "Invalid email format"
                   else "") by reflexivity.
  rewrite E. clear E.
  assert (Hiff : (if String.eqb (Js.trim s) "" then "Email is required"
                  else if negb (test emailPattern s) then "Invalid email format"
                       else "") = "" <-> emailShape s).
  { destruct (String.eqb (Js.trim s) "") eqn:T.
    - split; [discriminate|].
      intros (local & domain & -> & Hl & _ & _ & Hsp & _). exfalso.
      apply String.eqb_eq, trim_blank in T.
      destruct local as [|c local]; [congruence|].
      cbn in T, Hsp. apply andb_true_iff in T as [T _].
      apply isWhiteSpace_In in T. now apply (Hsp c); [left|].
    - rewrite <- emailPattern_shape.
      destruct (test emailPattern s); cbn; split; congruence. }
  split; [exact Hiff|]. split.
  - intros H. now apply emailShape_specEmailShape, Hiff.
  - destruct (String.eqb (Js.trim s) ""); [tauto|].
    destruct (test emailPattern s); cbn; tauto.
Qed.

(** C3 as stated fails: ["a@b."] has exactly one "@" and a "." in its
    domain, and the validator rejects it, nothing following the ".". *)
Lemma validateField_email_spec_shape_rejected :
  ~ (validateField "email" "a@b." = "" <-> specEmailShape "a@b.").
Proof.
  intros [_ H].
  assert (Hs : specEmailShape "a@b.").
  { exists "a", "b.". cbn. repeat split.
    - intros [H1|[]]. discriminate.
    - intros [H1|[H1|[]]]; discriminate.
    - right. now left. }
  apply H in Hs. discriminate.
Qed.

(** ** The event resolver *)

(** Case analysis on how a run of the effect goes: the request, the status,
    the body, the search and the two flags of the event found. *)
Ltac effect_cases :=
  unfold runEffect, fetchEventDetails, Eff.calls;
  repeat (cbn in *;
          match goal with
          | reply : Listing |- _ => destruct reply as [?|[[] ? [?|?]]]
          | |- context [(?x =? 403)%Z] => destruct (x =? 403)%Z eqn:?
          | |- context [findEvent ?i ?l] => destruct (findEvent i l) eqn:?
          | |- context [isDisabled ?x] => destruct (isDisabled x) eqn:?
          | |- context [negb (companyDisabled ?st)] => destruct (companyDisabled st) eqn:?
          end);
  cbn in *.

Lemma runEffect_frame p reply st :
  loading (runEffect p reply st) = false /\
  formData (runEffect p reply st) = formData st /\
  formErrors (runEffect p reply st) = formErrors st /\
  submitting (runEffect p reply st) = submitting st /\
  success (runEffect p reply st) = success st.
Proof. effect_cases; auto. Qed.

(** A run of the effect of a render in which [companyDisabled] was set
    leaves the flag and the error message as they were. *)
Lemma runEffect_company_disabled p reply st :
  companyDisabled st = true ->
  companyDisabled (runEffect p reply st) = true /\
  error (runEffect p reply st) = error st.
Proof. intros H. effect_cases; auto; congruence. Qed.

(** After the runs of [load] the dependency [companyDisabled] of the effect
    is what the last run closed over: the effect does not run a third
    time. *)
Lemma load_settles p first second :
  let st1 := runEffect p first initialState in
  (companyDisabled st1 = companyDisabled initialState /\ load p first second = st1) \/
  (companyDisabled st1 = true /\
   load p first second = runEffect p second st1 /\
   companyDisabled (load p first second) = companyDisabled st1).
Proof.
  cbn zeta. unfold load.
  destruct (companyDisabled (runEffect p first initialState)) eqn:C.
  - right. cbn [Bool.eqb initialState companyDisabled].
    destruct (runEffect_company_disabled p second _ C) as [C2 _]. auto.
  - left. auto.
Qed.

Lemma isDisabled_true x : isDisabled x = true <-> x = Some "disabled".
Proof.
  destruct x as [s|]; cbn; [|split; discriminate].
  rewrite String.eqb_eq. split; congruence.
Qed.

Lemma isDisabled_false x : isDisabled x = false <-> x <> Some "disabled".
Proof. rewrite <- isDisabled_true. destruct (isDisabled x); split; congruence. Qed.

(** The listing answers with an event that [find] selects. *)
Lemma runEffect_found p events status ev st :
  findEvent (eventId p) events = Some ev ->
  runEffect p (listed events status) st =
  applyUpdates
    ([setLoading true; setEvent ev]
       ++ (if isDisabled (Event.status ev) then [setEventDisabled true] else [])
       ++ (if isDisabled (Event.companyStatus ev) then [setCompanyDisabled true] else [])
       ++ [setLoading false]) st.
Proof.
  intros H. unfold runEffect, fetchEventDetails, listed, Eff.calls. cbn. rewrite H.
  destruct (isDisabled (Event.status ev)), (isDisabled (Event.companyStatus ev));
    reflexivity.
Qed.

(** The first run of the effect sets an event only when the listing
    answered with a success status and a body in which [find] selects it. *)
Lemma runEffect_event p reply st ev :
  event st = None ->
  event (runEffect p reply st) = Some ev ->
  exists events status,
    reply = listed events status /\ findEvent (eventId p) events = Some ev.
Proof.
  intros H0. unfold listed.
  effect_cases; intros H; try congruence; injection H as <-; eauto.
Qed.

(** When a run of the effect of a render without [companyDisabled] has set
    no event, it has set the error message. *)
Lemma runEffect_no_event p reply st :
  companyDisabled st = false ->
  event (runEffect p reply st) = None ->
  error (runEffect p reply st) = "Event not found or no longer available".
Proof. intros H. effect_cases; intros H1; congruence. Qed.

Lemma runEffect_event_kept p reply st ev :
  event st = Some ev -> exists ev', event (runEffect p reply st) = Some ev'.
Proof. intros H. effect_cases; eauto. Qed.

Lemma runEffect_error_kept p reply st :
  error st <> "" -> error (runEffect p reply st) <> "".
Proof. intros H. effect_cases; auto; discriminate. Qed.

Lemma findEvent_Some eventId events e :
  findEvent eventId events = Some e <->
  exists before after,
    events = before ++ e :: after /\
    sameIdentifier eventId e /\
    forall x, In x before -> ~ sameIdentifier eventId x.
Proof.
  unfold findEvent, sameIdentifier.
  induction events as [|x events IH]; cbn.
  - split; [discriminate|]. intros ([|? ?] & ? & ? & _); discriminate.
  - destruct (String.eqb_spec (Js.toLowerCase (Js.trim (Event.id x)))
                (Js.toLowerCase (Js.trim eventId))) as [E|E].
    + split.
      * intros [= <-]. exists [], events. cbn. tauto.
      * intros ([|y before] & after & Hl & _ & Hb); cbn in Hl.
        -- congruence.
        -- injection Hl as <- _. exfalso. apply (Hb x); [now left | exact E].
    + rewrite IH. split.
      * intros (before & after & -> & He & Hb).
        exists (x :: before), after. split; [reflexivity|]. split; [exact He|].
        intros y [<-|Hy]; [exact E | now apply Hb].
      * intros ([|y before] & after & Hl & He & Hb); cbn in Hl.
        -- injection Hl as -> _. contradiction.
        -- injection Hl as <- ->. exists before, after.
           split; [reflexivity|]. split; [exact He|].
           intros z Hz. apply Hb. now right.
Qed.

Lemma findEvent_None eventId events :
  findEvent eventId events = None <->
  forall x, In x events -> ~ sameIdentifier eventId x.
Proof.
  unfold findEvent, sameIdentifier.
  induction events as [|x events IH]; cbn.
  - split; [intros _ x []|reflexivity].
  - destruct (String.eqb_spec (Js.toLowerCase (Js.trim (Event.id x)))
                (Js.toLowerCase (Js.trim eventId))) as [E|E].
    + split; [discriminate|]. intros H. exfalso. apply (H x); [now left | exact E].
    + rewrite IH. split.
      * intros H y [<-|Hy]; [exact E | now apply H].
      * intros H y Hy. apply H. now right.
Qed.

(** C4, as the code behaves. When the listing answers 403, the run of the
    effect sets [companyDisabled] and then, in its [catch] block, reads the
    [companyDisabled] of the render it closes over, which is still unset,
    and sets the error message as well.  The effect runs again for the
    changed flag, and whatever the listing answers then, the message stays:
    the page ends on the error view, not on the view of a disabled
    organization. *)
Theorem access_denied_ends_on_error_view (p : Props) (body : exn + list Event.t)
    (second : Listing) :
  let st := load p (refused 403 body) second in
  companyDisabled st = true /\
  render st = ErrorView "Event not found or no longer available" /\
  submissionState st = FetchError.
Proof.
  cbn zeta. unfold load.
  set (st1 := runEffect p (refused 403 body) initialState).
  assert (E1 : st1 = applyUpdates [setLoading true; setCompanyDisabled true;
                  setError "Event not found or no longer available";
                  setLoading false] initialState) by reflexivity.
  assert (C1 : companyDisabled st1 = true) by now rewrite E1.
  rewrite C1. cbn [Bool.eqb initialState companyDisabled].
  destruct (runEffect_company_disabled p second st1 C1) as [C2 R2].
  destruct (runEffect_frame p second st1) as (L2 & _ & _ & S2 & _).
  assert (R : render (runEffect p second st1)
              = ErrorView "Event not found or no longer available").
  { unfold render. rewrite L2, R2, S2, E1. reflexivity. }
  split; [exact C2|]. split; [exact R|].
  unfold submissionState. now rewrite R.
Qed.

(** C5. When the listing answers with an event that the resolver selects,
    whose [status] is ['disabled'] and whose [companyStatus] is not, the
    page ends in the event-disabled state: it renders the blocking view
    headed "Registration Disabled", which is not the form, and holds the
    event. *)
Theorem disabled_event_ends_on_disabled_view (p : Props) (events : list Event.t)
    (status : Z) (second : Listing) (ev : Event.t) :
  findEvent (eventId p) events = Some ev ->
  Event.status ev = Some "disabled" ->
  Event.companyStatus ev <> Some "disabled" ->
  let st := load p (listed events status) second in
  submissionState st = EventDisabled /\
  render st = DisabledView "Registration Disabled" /\
  (forall banner disabled, render st <> FormView banner disabled) /\
  render st <> SuccessView /\
  event st = Some ev.
Proof.
  intros Hf Hs%isDisabled_true Hc%isDisabled_false. cbn zeta.
  unfold load. rewrite (runEffect_found _ _ _ _ _ Hf), Hs, Hc. cbn.
  repeat split; discriminate.
Qed.

Lemma disabled_event_ends_on_disabled_view_witness :
  let ev := {| Event.id := "launch-party"; Event.name := "Launch Party";
               Event.image := None; Event.description := "";
               Event.date := "2025-01-01"; Event.registrations := 0;
               Event.status := Some "disabled"; Event.companyStatus := Some "active" |} in
  submissionState
    (load {| companyName := "Acme"; eventId := "Launch-Party" |}
       (listed [ev] 200) (listed [ev] 200)) = EventDisabled.
Proof.
  intros ev.
  apply (disabled_event_ends_on_disabled_view
           {| companyName := "Acme"; eventId := "Launch-Party" |} [ev] 200
           (listed [ev] 200) ev); [reflexivity | reflexivity | discriminate].
Defined.

(** The page after a listing answer in which the resolver selects an event
    with neither flag set. *)
Lemma load_enabled p events status second ev :
  findEvent (eventId p) events = Some ev ->
  Event.status ev <> Some "disabled" ->
  Event.companyStatus ev <> Some "disabled" ->
  load p (listed events status) second =
  applyUpdates [setEvent ev; setLoading false] initialState.
Proof.
  intros Hf Hs%isDisabled_false Hc%isDisabled_false.
  unfold load. rewrite (runEffect_found _ _ _ _ _ Hf), Hs, Hc. reflexivity.
Qed.

(** ** The states of the specification in terms of the state cells *)

Lemma editing_cells st :
  submissionState st = Editing <->
  loading st = false /\ error st = "" /\ submitting st = false /\
  eventDisabled st = false /\ companyDisabled st = false /\ success st = false.
Proof.
  unfold submissionState, render.
  destruct st as [fd fe [] [] [|c m] [] ev [] []]; cbn;
    (split; [try discriminate; tauto | intros (?&?&?&?&?&?); congruence]).
Qed.

(** ** The submit handler *)

Lemma validateEntry_fieldError key value acc :
  validateEntry key value acc =
  match fieldError key value with
  | Some e => (<[key := e]> acc.1, true)
  | None => acc
  end.
Proof.
  unfold validateEntry, fieldError.
  destruct (String.eqb key "gender" || String.eqb key "status"); [reflexivity|].
  now destruct (String.eqb (validateField key value) "").
Qed.

(** The loop over the entries of [formData] records, under each key, the
    error of its value, and raises the flag when there is one. *)
Lemma validateAll_spec (fd : gmap string string) :
  (forall k, (validateAll fd).1 !! k = fd !! k ≫= fieldError k) /\
  ((validateAll fd).2 = true <->
   exists k v, fd !! k = Some v /\ is_Some (fieldError k v)).
Proof.
  unfold validateAll.
  apply (map_fold_weak_ind
           (fun acc (m : gmap string string) =>
              (forall k, acc.1 !! k = m !! k ≫= fieldError k) /\
              (acc.2 = true <-> exists k v, m !! k = Some v /\ is_Some (fieldError k v)))).
  - split.
    + intros k. now rewrite !lookup_empty.
    + cbn. split; [discriminate|]. intros (k & v & H & _). now rewrite lookup_empty in H.
  - intros i x m r Hi [IH1 IH2]. rewrite validateEntry_fieldError.
    destruct (fieldError i x) as [e|] eqn:E; cbn [fst snd].
    + split.
      * intros k. destruct (decide (i = k)) as [<-|Hne].
        -- rewrite !lookup_insert_eq. cbn. now rewrite E.
        -- rewrite !lookup_insert_ne by done. apply IH1.
      * split; [|reflexivity]. intros _. exists i, x.
        rewrite lookup_insert_eq, E. split; [reflexivity | now exists e].
    + split.
      * intros k. destruct (decide (i = k)) as [<-|Hne].
        -- rewrite IH1, Hi, lookup_insert_eq. cbn. now rewrite E.
        -- rewrite lookup_insert_ne by done. apply IH1.
      * rewrite IH2. split.
        -- intros (k & v & Hk & Hv). exists k, v. split; [|exact Hv].
           rewrite lookup_insert_ne; [exact Hk|]. intros <-. congruence.
        -- intros (k & v & Hk & Hv). exists k, v. split; [|exact Hv].
           destruct (decide (i = k)) as [<-|Hne].
           ++ rewrite lookup_insert_eq in Hk. injection Hk as <-.
              rewrite E in Hv. now destruct Hv.
           ++ now rewrite lookup_insert_ne in Hk.
Qed.

(** What [handleSubmit] does in a state with an event and no disabled flag:
    it stops on an error of validation and issues the request otherwise. *)
Lemma handleSubmit_open p st ev :
  event st = Some ev -> eventDisabled st = false -> companyDisabled st = false ->
  handleSubmit p st =
  if (validateAll (formData st)).2
  then Returned [setFormErrors (fun _ => (validateAll (formData st)).1)]
  else Awaiting
         [setFormErrors (fun _ => (validateAll (formData st)).1);
          setSubmitting true; setError ""]
         {| url := "/api/events/register"; method := "POST";
            body := registrationBody p ev (formData st) |}
         (fun reply => Eff.calls (submitSettled reply)).
Proof.
  intros He Hd Hc. unfold handleSubmit. rewrite He, Hd, Hc. cbn.
  now destruct (validateAll (formData st)) as [errors []].
Qed.

Lemma submitSettled_calls reply :
  Eff.calls (submitSettled reply) =
  match reply with
  | inl e => [setError (message e); setSubmitting false]
  | inr response =>
      if ok response then
        [setSuccess true; setFormData (fun _ => emptyFormData);
         setFormErrors (fun _ => ∅); setSubmitting false]
      else
        match json response with
        | inl e => [setError (message e); setSubmitting false]
        | inr errorData => [setError (failureMessage errorData); setSubmitting false]
        end
  end.
Proof.
  destruct reply as [e|[[] status [e|errorData]]]; try reflexivity.
Qed.

(** ** Invariants of the reachable states *)

Lemma changed_cells name value st :
  changed name value st =
  {| formData := <[name := value]> (formData st);
     formErrors := <[name := validateField name value]> (formErrors st);
     loading := loading st; submitting := submitting st; error := error st;
     success := success st; event := event st;
     eventDisabled := eventDisabled st; companyDisabled := companyDisabled st |}.
Proof. reflexivity. Qed.

(** The handlers leave the event, the two flags and [loading] alone, and
    [handleSubmit] resets [formData] or leaves it alone. *)
Lemma submitted_frame p st :
  event (submitted p st) = event st /\
  eventDisabled (submitted p st) = eventDisabled st /\
  companyDisabled (submitted p st) = companyDisabled st /\
  loading (submitted p st) = loading st /\
  success (submitted p st) = success st /\
  formData (submitted p st) = formData st.
Proof.
  unfold submitted, handleSubmit.
  destruct (event st) eqn:E; [|cbn; rewrite E; tauto].
  destruct (eventDisabled st || companyDisabled st); [cbn; rewrite E; tauto|].
  destruct (validateAll (formData st)) as [errors []]; cbn; rewrite E; tauto.
Qed.

Lemma settled_frame p st reply :
  event (settled p st reply) = event st /\
  eventDisabled (settled p st reply) = eventDisabled st /\
  companyDisabled (settled p st reply) = companyDisabled st /\
  loading (settled p st reply) = loading st /\
  (formData (settled p st reply) = formData st \/
   formData (settled p st reply) = emptyFormData).
Proof.
  unfold settled, submitted, handleSubmit.
  destruct (event st) eqn:E; [|cbn; rewrite E; tauto].
  destruct (eventDisabled st || companyDisabled st); [cbn; rewrite E; tauto|].
  destruct (validateAll (formData st)) as [errors []]; [cbn; rewrite E; tauto|].
  cbn [settledOf callsOf]. rewrite submitSettled_calls.
  destruct reply as [e|[[] status [e|errorData]]]; cbn; rewrite E; tauto.
Qed.

Lemma emptyFormData_names k : is_Some (emptyFormData !! k) <-> In k inputNames.
Proof.
  unfold emptyFormData, inputNames.
  rewrite !lookup_insert_is_Some, lookup_empty, is_Some_alt. cbn [In].
  destruct (decide ("name" = k)), (decide ("phone" = k)), (decide ("email" = k)),
    (decide ("gender" = k)), (decide ("college" = k)), (decide ("status" = k)),
    (decide ("nationalId" = k)); tauto.
Qed.

Section Reachable.

Variable p : Props.
Variables first second : Listing.

Lemma load_invariant : invariant p first (load p first second).
Proof.
  unfold load.
  set (st1 := runEffect p first initialState).
  destruct (runEffect_frame p first initialState) as (_ & F1 & _ & S1 & _).
  fold st1 in F1, S1.
  assert (N1 : event st1 = None -> error st1 <> "").
  { intros H. unfold st1. rewrite runEffect_no_event; [discriminate|reflexivity|exact H]. }
  destruct (companyDisabled st1) eqn:C1; cbn [Bool.eqb initialState companyDisabled].
  - destruct (runEffect_frame p second st1) as (_ & F2 & _ & S2 & _).
    destruct (runEffect_company_disabled p second st1 C1) as [C2 R2].
    split; [|split].
    + intros k. rewrite F2, F1. apply emptyFormData_names.
    + intros H. rewrite S2, S1. split; [|reflexivity].
      destruct (event st1) as [ev|] eqn:E1.
      * destruct (runEffect_event_kept p second st1 ev E1) as [ev' E2]. congruence.
      * apply runEffect_error_kept. now apply N1.
    + intros ev _ H. congruence.
  - split; [|split].
    + intros k. rewrite F1. apply emptyFormData_names.
    + intros H. rewrite S1. split; [now apply N1|reflexivity].
    + intros ev H _. now apply (runEffect_event p first initialState ev).
Qed.

Theorem reachable_invariant st :
  reachable p first second st -> invariant p first st.
Proof.
  induction 1 as [|st name value _ IH He Hn|st _ IH He|st reply _ IH He].
  - apply load_invariant.
  - destruct IH as (I1 & I2 & I3). rewrite changed_cells.
    split; [|split]; cbn [formData event error submitting companyDisabled];
      [|exact I2|exact I3].
    intros k. rewrite lookup_insert_is_Some, I1.
    destruct (decide (name = k)) as [<-|]; tauto.
  - destruct IH as (I1 & I2 & I3).
    destruct (submitted_frame p st) as (F1 & F2 & F3 & F4 & F5 & F6).
    split; [|split].
    + intros k. rewrite F6. apply I1.
    + rewrite F1. intros H. unfold submitted, handleSubmit. rewrite H. cbn.
      split; [discriminate | now apply I2].
    + rewrite F1, F3. exact I3.
  - destruct IH as (I1 & I2 & I3).
    destruct (settled_frame p st reply) as (F1 & F2 & F3 & F4 & F5).
    split; [|split].
    + intros k. destruct F5 as [-> | ->]; [apply I1 | apply emptyFormData_names].
    + rewrite F1. intros H. unfold settled, submitted, handleSubmit. rewrite H. cbn.
      split; [discriminate | now apply I2].
    + rewrite F1, F3. exact I3.
Qed.

(** In the editing state the page holds the event the resolver selected. *)
Lemma editing_event st :
  reachable p first second st ->
  submissionState st = Editing ->
  exists ev events status,
    event st = Some ev /\
    first = listed events status /\ findEvent (eventId p) events = Some ev.
Proof.
  intros (_ & I2 & I3)%reachable_invariant (_ & E & _ & _ & C & _)%editing_cells.
  destruct (event st) as [ev|] eqn:Ev.
  - destruct (I3 ev eq_refl C) as (events & status & ? & ?). eauto 6.
  - destruct (I2 eq_refl) as [? _]. contradiction.
Qed.

End Reachable.

Lemma invalid_validateField key value :
  In key textFields -> (invalid key value <-> validateField key value <> "").
Proof.
  unfold invalid.
  intros [<-|[<-|[<-|[<-|[<-|[]]]]]]; cbn;
    destruct (String.eqb_spec (Js.trim value) "") as [E|E];
    try (split; [intros _; discriminate | tauto]);
    try (split; [intros [?|[[? _]|[? _]]]; [contradiction|discriminate..] | congruence]).
  - destruct (test phonePattern value); cbn.
    + split; [intros [?|[[_ ?]|[? _]]]; [contradiction|discriminate..] | congruence].
    + split; [discriminate | tauto].
  - destruct (test emailPattern value); cbn.
    + split; [intros [?|[[? _]|[_ ?]]]; [contradiction|discriminate..] | congruence].
    + split; [discriminate | tauto].
Qed.

Lemma fieldError_text key value :
  In key textFields ->
  fieldError key value =
  if String.eqb (validateField key value) "" then None
  else Some (validateField key value).
Proof. now intros [<-|[<-|[<-|[<-|[<-|[]]]]]]. Qed.

Lemma fieldError_other key value : ~ In key textFields -> fieldError key value = None.
Proof.
  intros H. unfold fieldError, validateField.
  destruct (String.eqb key "gender" || String.eqb key "status"); [reflexivity|].
  destruct (String.eqb_spec key "name") as [->|_]; [exfalso; apply H; cbn; tauto|].
  destruct (String.eqb_spec key "phone") as [->|_]; [exfalso; apply H; cbn; tauto|].
  destruct (String.eqb_spec key "email") as [->|_]; [exfalso; apply H; cbn; tauto|].
  destruct (String.eqb_spec key "college") as [->|_]; [exfalso; apply H; cbn; tauto|].
  destruct (String.eqb_spec key "nationalId") as [->|_]; [exfalso; apply H; cbn; tauto|].
  reflexivity.
Qed.

(** C1. In every editing state the page goes through, if the value of some
    free-text field is empty after trimming or fails the pattern of its
    field, the submit handler makes no network call; it replaces the error
    map by the one that holds, for each free-text field, the message of
    [validateField] for its value when that message is not empty, and holds
    nothing else; [submitting] stays unset, the form values, the banner, the
    event and the flags are as before, and the page is still editing. *)
Theorem invalid_submission_is_rejected (p : Props) (first second : Listing)
    (st : PageState) (key value : string) :
  reachable p first second st ->
  submissionState st = Editing ->
  In key textFields ->
  formData st !! key = Some value ->
  invalid key value ->
  requestOf (handleSubmit p st) = None /\
  (forall reply, settled p st reply = submitted p st) /\
  formErrors (submitted p st) !! key = Some (validateField key value) /\
  (forall k v, In k textFields -> formData st !! k = Some v ->
     formErrors (submitted p st) !! k =
     if String.eqb (validateField k v) "" then None else Some (validateField k v)) /\
  (forall k, ~ In k textFields -> formErrors (submitted p st) !! k = None) /\
  submitting (submitted p st) = false /\
  submissionState (submitted p st) = Editing /\
  formData (submitted p st) = formData st /\
  error (submitted p st) = error st /\
  event (submitted p st) = event st.
Proof.
  intros Hr He Hk Hv Hi.
  destruct (editing_event _ _ _ _ Hr He) as (ev & _ & _ & Ev & _).
  pose proof He as (L & R & S & D & C & U)%editing_cells.
  pose proof (handleSubmit_open p st ev Ev D C) as Hs.
  destruct (validateAll_spec (formData st)) as [V1 V2].
  assert (Hinv : validateField key value <> "") by now apply invalid_validateField.
  assert (Hfe : fieldError key value = Some (validateField key value)).
  { rewrite fieldError_text by assumption.
    destruct (String.eqb_spec (validateField key value) ""); congruence. }
  assert (F : (validateAll (formData st)).2 = true).
  { apply V2. exists key, value. rewrite Hfe. eauto. }
  rewrite F in Hs.
  assert (Hst : submitted p st = applyUpdates
                  [setFormErrors (fun _ => (validateAll (formData st)).1)] st).
  { unfold submitted. now rewrite Hs. }
  split; [now rewrite Hs|].
  split; [intros reply; unfold settled; now rewrite Hs|].
  rewrite Hst. cbn.
  split; [now rewrite V1, Hv; cbn|].
  split; [intros k v Hk' Hv'; rewrite V1, Hv'; cbn; now apply fieldError_text|].
  split.
  { intros k Hk'. rewrite V1. destruct (formData st !! k); cbn; [|reflexivity].
    now apply fieldError_other. }
  split; [exact S|].
  split; [|auto].
  apply editing_cells. cbn. auto 7.
Qed.

Lemma invalid_submission_is_rejected_witness :
  requestOf (handleSubmit acme acmeLoaded) = None /\
  formErrors (submitted acme acmeLoaded) !! "name" = Some "Full name is required" /\
  submissionState (submitted acme acmeLoaded) = Editing.
Proof.
  destruct (invalid_submission_is_rejected acme (listed [launchParty] 200)
              (listed [launchParty] 200) acmeLoaded "name" "")
    as (H1 & _ & H2 & _ & _ & _ & H3 & _).
  - apply reach_load.
  - reflexivity.
  - cbn. tauto.
  - reflexivity.
  - left. reflexivity.
  - exact (conj H1 (conj H2 H3)).
Defined.

(** The cells of an editing state from which [handleSubmit] issues its
    request. *)
Lemma submitting_cells p st request :
  submissionState st = Editing ->
  requestOf (handleSubmit p st) = Some request ->
  submitted p st = applyUpdates
    [setFormErrors (fun _ => (validateAll (formData st)).1);
     setSubmitting true; setError ""] st /\
  forall reply,
    settled p st reply = applyUpdates (Eff.calls (submitSettled reply)) (submitted p st).
Proof.
  intros (L & R & S & D & C & U)%editing_cells Hreq.
  unfold settled, submitted. unfold handleSubmit in *.
  destruct (event st) as [ev|]; [|discriminate].
  rewrite D, C in *. cbn [orb] in *.
  destruct (validateAll (formData st)) as [errors []]; [discriminate|].
  split; [reflexivity|]. intros reply. reflexivity.
Qed.

(** C7. A submission from the editing state whose request is answered with
    a success status takes the page to submitting while the request is in
    flight and to success when it settles; [formData] is then the object of
    defaults (the five free-text fields empty, gender male, status student)
    and the error map is empty. *)
Theorem successful_submission_resets_form (p : Props) (st : PageState)
    (request : Request) (status : Z) (body : exn + option string) :
  submissionState st = Editing ->
  requestOf (handleSubmit p st) = Some request ->
  let st' := settled p st (accepted status body) in
  submissionState (submitted p st) = Submitting /\
  submissionState st' = Success /\
  formData st' = emptyFormData /\
  formErrors st' = ∅ /\
  (emptyFormData !! "name" = Some "" /\
   emptyFormData !! "phone" = Some "" /\
   emptyFormData !! "email" = Some "" /\
   emptyFormData !! "college" = Some "" /\
   emptyFormData !! "nationalId" = Some "" /\
   emptyFormData !! "gender" = Some "male" /\
   emptyFormData !! "status" = Some "student").
Proof.
  intros He Hreq. cbn zeta.
  destruct (submitting_cells p st request He Hreq) as [Hs Hd].
  apply editing_cells in He as (L & R & S & D & C & U).
  rewrite Hd, Hs, submitSettled_calls. unfold accepted. cbn.
  unfold submissionState, render. cbn. rewrite L, D, C, U. cbn.
  repeat split; reflexivity.
Qed.

Lemma successful_submission_resets_form_witness :
  submissionState (submitted acme adaTyped) = Submitting /\
  submissionState (settled acme adaTyped (accepted 201 (inr None))) = Success /\
  formData (settled acme adaTyped (accepted 201 (inr None))) = emptyFormData /\
  formErrors (settled acme adaTyped (accepted 201 (inr None))) = ∅.
Proof.
  edestruct (successful_submission_resets_form acme adaTyped)
    as (H1 & H2 & H3 & H4 & _).
  - reflexivity.
  - vm_compute. reflexivity.
  - exact (conj H1 (conj H2 (conj H3 H4))).
Defined.

(** C8, as the code behaves. A submission from the editing state whose
    request is answered with a failure status and a JSON body keeps the
    form values and sets the error message to the [error] of the body, or
    to "Failed to register for event" when the body has none; but with
    that message set and [submitting] unset, the component returns the
    blocking error view: the page does not come back to the form. *)
Theorem failed_submission_ends_on_error_view (p : Props) (st : PageState)
    (request : Request) (status : Z) (errorData : option string) :
  submissionState st = Editing ->
  requestOf (handleSubmit p st) = Some request ->
  let st' := settled p st (rejected status errorData) in
  submissionState (submitted p st) = Submitting /\
  formData st' = formData st /\
  error st' = failureMessage errorData /\
  render st' = ErrorView (failureMessage errorData) /\
  submissionState st' = FetchError.
Proof.
  intros He Hreq. cbn zeta.
  destruct (submitting_cells p st request He Hreq) as [Hs Hd].
  apply editing_cells in He as (L & R & S & D & C & U).
  rewrite Hd, Hs, submitSettled_calls. unfold rejected. cbn.
  unfold submissionState, render. cbn. rewrite L, D, C, U. cbn.
  destruct errorData as [[|c m]|]; cbn; repeat split; reflexivity.
Qed.

Lemma failed_submission_ends_on_error_view_witness :
  render (settled acme adaTyped (rejected 400 (Some "Duplicate registration")))
  = ErrorView "Duplicate registration" /\
  submissionState (settled acme adaTyped (rejected 400 (Some "Duplicate registration")))
  = FetchError.
Proof.
  edestruct (failed_submission_ends_on_error_view acme adaTyped)
    as (_ & _ & _ & H1 & H2).
  - reflexivity.
  - vm_compute. reflexivity.
  - exact (conj H1 H2).
Defined.

(** C9. A change event for the field [name] with the value [value] makes no
    network call; it puts [value] under [name] in the form data and the
    message of [validateField] for that one field under [name] in the error
    map, and leaves every other entry of both, the event, the two disabled
    flags and the other state cells as they were. *)
Theorem change_updates_one_field (st : PageState) (name value : string) :
  requestOf (handleChange name value) = None /\
  formData (changed name value st) !! name = Some value /\
  formErrors (changed name value st) !! name = Some (validateField name value) /\
  (forall k, k <> name ->
     formData (changed name value st) !! k = formData st !! k /\
     formErrors (changed name value st) !! k = formErrors st !! k) /\
  event (changed name value st) = event st /\
  eventDisabled (changed name value st) = eventDisabled st /\
  companyDisabled (changed name value st) = companyDisabled st /\
  loading (changed name value st) = loading st /\
  submitting (changed name value st) = submitting st /\
  error (changed name value st) = error st /\
  success (changed name value st) = success st /\
  submissionState (changed name value st) = submissionState st.
Proof.
  rewrite changed_cells. cbn.
  split; [reflexivity|].
  split; [apply lookup_insert_eq|].
  split; [apply lookup_insert_eq|].
  split; [intros k Hk; now rewrite !lookup_insert_ne|].
  repeat split; reflexivity.
Qed.

Lemma registrationBody_lookup p ev fd k :
  registrationBody p ev fd !! k =
  match fd !! k with
  | Some v => Some v
  | None =>
      if decide (k = "eventName") then Some (Event.id ev)
      else if decide (k = "companyName") then Some (companyName p)
      else None
  end.
Proof.
  unfold registrationBody. rewrite lookup_union.
  destruct (fd !! k) as [v|]; cbn.
  - now destruct (_ !! k).
  - destruct (decide (k = "eventName")) as [->|Hn]; [now rewrite lookup_insert_eq|].
    rewrite lookup_insert_ne by done.
    destruct (decide (k = "companyName")) as [->|Hc]; [now rewrite lookup_insert_eq|].
    now rewrite lookup_insert_ne, lookup_empty by done.
Qed.

(** C10. In every editing state the page goes through, when the validation
    of the submit handler finds no error, the handler issues one POST to
    the registration endpoint, and the [eventName] of its body is the [id]
    of the event that the resolver selected in the answer of the listing,
    as stored there; [companyName] is the decoded path segment and the
    seven form fields are the form values. *)
Theorem request_names_the_stored_event (p : Props) (first second : Listing)
    (st : PageState) :
  reachable p first second st ->
  submissionState st = Editing ->
  (validateAll (formData st)).2 = false ->
  exists ev events status request,
    first = listed events status /\
    findEvent (eventId p) events = Some ev /\
    In ev events /\
    requestOf (handleSubmit p st) = Some request /\
    url request = "/api/events/register" /\
    method request = "POST" /\
    body request !! "eventName" = Some (Event.id ev) /\
    body request !! "companyName" = Some (companyName p) /\
    (forall k, In k inputNames -> body request !! k = formData st !! k).
Proof.
  intros Hr He Hv.
  destruct (editing_event _ _ _ _ Hr He) as (ev & events & status & Ev & Hf & Hs).
  pose proof He as (L & R & S & D & C & U)%editing_cells.
  destruct (reachable_invariant _ _ _ _ Hr) as (I1 & _ & _).
  assert (Hout : forall k, ~ In k inputNames -> formData st !! k = None).
  { intros k Hk. destruct (formData st !! k) eqn:E; [|reflexivity].
    exfalso. apply Hk, I1. rewrite E. eauto. }
  exists ev, events, status. eexists.
  split; [exact Hf|]. split; [exact Hs|].
  split.
  { apply findEvent_Some in Hs as (before & after & -> & _).
    apply in_or_app. right. now left. }
  rewrite (handleSubmit_open p st ev Ev D C), Hv.
  split; [reflexivity|]. cbn [url method body].
  split; [reflexivity|]. split; [reflexivity|].
  rewrite !registrationBody_lookup.
  rewrite !Hout by (cbn; intros H; decompose [or] H; discriminate || contradiction).
  split; [reflexivity|]. split; [reflexivity|].
  intros k Hk. rewrite registrationBody_lookup.
  apply I1 in Hk as [v ->]. reflexivity.
Qed.

Lemma request_names_the_stored_event_witness :
  exists ev events status request,
    listed [launchParty] 200 = listed events status /\
    findEvent " Launch-Party " events = Some ev /\
    In ev events /\
    requestOf (handleSubmit acme adaTyped) = Some request /\
    url request = "/api/events/register" /\
    method request = "POST" /\
    body request !! "eventName" = Some (Event.id ev) /\
    body request !! "companyName" = Some "Acme" /\
    (forall k, In k inputNames -> body request !! k = formData adaTyped !! k).
Proof.
  apply (request_names_the_stored_event acme (listed [launchParty] 200)
           (listed [launchParty] 200) adaTyped).
  - repeat (apply reach_change; [|reflexivity|cbn; tauto]). apply reach_load.
  - reflexivity.
  - vm_compute. reflexivity.
Defined.

(** The request of the sample submission: the path segment is
    [" Launch-Party "] and the body names the event ["launch-party"]. *)
Example adaTyped_request :
  (body <$> requestOf (handleSubmit acme adaTyped)) ≫= (.!! "eventName")
  = Some "launch-party".
Proof. vm_compute. reflexivity. Qed.

(** * Further properties of the page *)

(** ** The validator, field by field *)

Lemma trim_empty_blank (s : string) : Js.trim s = "" <-> blank s.
Proof.
  rewrite trim_blank, forallb_forall. unfold blank.
  split; intros H c Hc; now apply isWhiteSpace_In, H.
Qed.

Lemma trim_eqb_blank (s : string) :
  (String.eqb (Js.trim s) "" = true <-> blank s) /\
  (String.eqb (Js.trim s) "" = false <-> ~ blank s).
Proof.
  rewrite <- trim_empty_blank.
  destruct (String.eqb_spec (Js.trim s) ""); split; split; congruence.
Qed.

(** X1. For the fields [name], [college] and [nationalId] the validator
    tests nothing but blankness: the result is the field's "required"
    message when the value is empty or holds white space only, and the empty
    string as soon as the value holds one other character. *)
Theorem validateField_plain_fields (value : string) :
  (blank value ->
     validateField "name" value = "Full name is required" /\
     validateField "college" value = "College name is required" /\
     validateField "nationalId" value = "National ID is required") /\
  (~ blank value ->
     validateField "name" value = "" /\
     validateField "college" value = "" /\
     validateField "nationalId" value = "").
Proof.
  destruct (trim_eqb_blank value) as [Ht Hf].
  split; intros H; [apply Ht in H|apply Hf in H];
    unfold validateField; cbn; rewrite H; auto.
Qed.

(** X2. For [phone] and [email] the emptiness test comes first: the result
    is the "required" message exactly for the blank values, the "invalid"
    message exactly for the values that are not blank and do not have the
    shape of the field, and empty otherwise. *)
Theorem validateField_pattern_fields (value : string) :
  (validateField "phone" value = "Phone number is required" <-> blank value) /\
  (validateField "phone" value = "Invalid phone number format. Must be 10-15 digits"
   <-> ~ blank value /\ ~ phoneShape value) /\
  (validateField "email" value = "Email is required" <-> blank value) /\
  (validateField "email" value = "Invalid email format"
   <-> ~ blank value /\ ~ emailShape value).
Proof.
  destruct (trim_eqb_blank value) as [Ht Hf].
  rewrite <- phonePattern_shape, <- emailPattern_shape.
  unfold validateField. cbn.
  destruct (String.eqb (Js.trim value) "") eqn:T.
  - assert (B : blank value) by now apply Ht.
    repeat split; try tauto; try discriminate; intros [? _]; contradiction.
  - assert (B : ~ blank value) by now apply Hf.
    destruct (test phonePattern value), (test emailPattern value); cbn;
      repeat split; try tauto; try discriminate; try congruence;
      intros [_ ?]; congruence.
Qed.

Lemma validateField_other key value :
  ~ In key textFields -> validateField key value = "".
Proof.
  intros H. unfold validateField.
  destruct (String.eqb_spec key "name") as [->|_]; [exfalso; apply H; cbn; tauto|].
  destruct (String.eqb_spec key "phone") as [->|_]; [exfalso; apply H; cbn; tauto|].
  destruct (String.eqb_spec key "email") as [->|_]; [exfalso; apply H; cbn; tauto|].
  destruct (String.eqb_spec key "college") as [->|_]; [exfalso; apply H; cbn; tauto|].
  destruct (String.eqb_spec key "nationalId") as [->|_]; [exfalso; apply H; cbn; tauto|].
  reflexivity.
Qed.

(** X3. The validator reports a message for the five free-text fields
    only: for every other field name, the two select fields [gender] and
    [status] included, every value passes, the empty one as well. *)
Theorem validateField_flags_text_fields_only (key value : string) :
  validateField key value <> "" -> In key textFields.
Proof.
  intros H.
  destruct (in_dec String.string_dec key textFields) as [Hin|Hout]; [exact Hin|].
  now rewrite validateField_other in H.
Qed.

Lemma validateField_flags_text_fields_only_witness : In "phone" textFields.
Proof.
  apply (validateField_flags_text_fields_only "phone" "12"). discriminate.
Defined.

(** ** Normal forms of identifiers *)

Lemma lowerUnit_whiteSpace c : Js.isWhiteSpace (Js.lowerUnit c) = Js.isWhiteSpace c.
Proof. destruct c as [[] [] [] [] [] [] [] []]; reflexivity. Qed.

Lemma lowerUnit_idem c : Js.lowerUnit (Js.lowerUnit c) = Js.lowerUnit c.
Proof. destruct c as [[] [] [] [] [] [] [] []]; reflexivity. Qed.

Lemma toLowerCase_idem s : Js.toLowerCase (Js.toLowerCase s) = Js.toLowerCase s.
Proof. induction s as [|c s IH]; cbn; [reflexivity|]. now rewrite lowerUnit_idem, IH. Qed.

Lemma trimStart_toLowerCase s :
  Js.trimStart (Js.toLowerCase s) = Js.toLowerCase (Js.trimStart s).
Proof.
  induction s as [|c s IH]; cbn; [reflexivity|].
  rewrite lowerUnit_whiteSpace. now destruct (Js.isWhiteSpace c).
Qed.

Lemma trimEnd_toLowerCase s :
  Js.trimEnd (Js.toLowerCase s) = Js.toLowerCase (Js.trimEnd s).
Proof.
  induction s as [|c s IH]; cbn; [reflexivity|].
  rewrite IH, lowerUnit_whiteSpace.
  destruct (Js.trimEnd s); cbn; [now destruct (Js.isWhiteSpace c)|reflexivity].
Qed.

Lemma trim_toLowerCase s : Js.trim (Js.toLowerCase s) = Js.toLowerCase (Js.trim s).
Proof. unfold Js.trim. now rewrite trimStart_toLowerCase, trimEnd_toLowerCase. Qed.

Lemma trimEnd_idem s : Js.trimEnd (Js.trimEnd s) = Js.trimEnd s.
Proof.
  induction s as [|c s IH]; cbn; [reflexivity|].
  destruct (Js.trimEnd s) as [|d t] eqn:E.
  - destruct (Js.isWhiteSpace c) eqn:W; cbn; [reflexivity|]. now rewrite W.
  - cbn. cbn in IH. now rewrite IH.
Qed.

(** Trimming at the end keeps a first code unit that is not white space. *)
Lemma trimEnd_head c s :
  Js.isWhiteSpace c = false -> exists t, Js.trimEnd (String c s) = String c t.
Proof.
  intros W. cbn. destruct (Js.trimEnd s); rewrite ?W; eauto.
Qed.

Lemma trim_idem s : Js.trim (Js.trim s) = Js.trim s.
Proof.
  unfold Js.trim. destruct (Js.trimStart s) as [|c u] eqn:E; [reflexivity|].
  pose proof (trimStart_head _ _ _ E) as W.
  destruct (trimEnd_head c u W) as [t Ht].
  rewrite Ht. cbn [Js.trimStart]. rewrite W, <- Ht. apply trimEnd_idem.
Qed.

(** X4. The resolver sees the requested identifier through its normal form
    only: the trimmed request, the lowercased request and the trimmed and
    lowercased request all select what the request itself selects, in every
    collection. *)
Theorem resolver_ignores_case_and_padding (requested : string)
    (events : list Event.t) :
  findEvent (Js.trim requested) events = findEvent requested events /\
  findEvent (Js.toLowerCase requested) events = findEvent requested events /\
  findEvent (Js.toLowerCase (Js.trim requested)) events = findEvent requested events.
Proof.
  unfold findEvent.
  rewrite trim_idem, !trim_toLowerCase, trim_idem, !toLowerCase_idem. auto.
Qed.

(** ** Outcomes of loading *)

Lemma runEffect_error_cases p reply st :
  error (runEffect p reply st) = error st \/
  error (runEffect p reply st) = notAvailable.
Proof. effect_cases; auto. Qed.

Lemma runEffect_eventDisabled_kept p reply st :
  eventDisabled st = true -> eventDisabled (runEffect p reply st) = true.
Proof. intros H. effect_cases; auto. Qed.

Lemma load_cells p first second :
  loading (load p first second) = false /\
  submitting (load p first second) = false /\
  success (load p first second) = false /\
  formData (load p first second) = emptyFormData /\
  formErrors (load p first second) = ∅ /\
  (error (load p first second) = "" \/ error (load p first second) = notAvailable).
Proof.
  unfold load.
  destruct (runEffect_frame p first initialState) as (L1 & F1 & E1 & S1 & U1).
  pose proof (runEffect_error_cases p first initialState) as R1.
  remember (runEffect p first initialState) as st1 eqn:Est1.
  cbn in F1, E1, S1, U1, R1.
  destruct (Bool.eqb (companyDisabled st1) (companyDisabled initialState)).
  - auto 10.
  - destruct (runEffect_frame p second st1) as (L2 & F2 & E2 & S2 & U2).
    rewrite F2, E2, S2, U2, F1, E1, S1, U1.
    repeat (split; [reflexivity || assumption|]).
    destruct (runEffect_error_cases p second st1) as [R2|R2]; rewrite R2; auto.
Qed.

(** X5. Whatever the listing endpoint answers, loading ends: the [finally]
    block clears [loading], the form data and the error map are the initial
    ones, and the page shows the generic error view, one of the two
    disabled views, or the empty form with its controls enabled. *)
Theorem loading_always_ends (p : Props) (first second : Listing) :
  let st := load p first second in
  loading st = false /\
  formData st = emptyFormData /\
  formErrors st = ∅ /\
  (render st = ErrorView "Event not found or no longer available" \/
   render st = DisabledView "Registration Disabled" \/
   render st = DisabledView "Company Inactive" \/
   render st = FormView "" false).
Proof.
  cbn zeta. destruct (load_cells p first second) as (L & S & U & F & E & R).
  split; [exact L|]. split; [exact F|]. split; [exact E|].
  unfold render. rewrite L, S, U.
  destruct R as [-> | ->]; cbn; [|now left].
  right. destruct (eventDisabled _), (companyDisabled _); cbn; auto.
Qed.

(** X6. The page offers the form after loading exactly when the first
    answer of the listing has a success status and a body in which the
    resolver selects an event whose [status] and [companyStatus] are both
    other than ['disabled']; the page then holds that event. *)
Theorem form_offered_iff (p : Props) (first second : Listing) :
  submissionState (load p first second) = Editing <->
  exists events status ev,
    first = listed events status /\
    findEvent (eventId p) events = Some ev /\
    Event.status ev <> Some "disabled" /\
    Event.companyStatus ev <> Some "disabled" /\
    event (load p first second) = Some ev.
Proof.
  split.
  - intros He.
    destruct (editing_event p first second _ (reach_load p first second) He)
      as (ev & events & status & Ev & -> & Hf).
    apply editing_cells in He as (_ & _ & _ & D & C & _).
    exists events, status, ev. split; [reflexivity|]. split; [exact Hf|].
    rewrite <- !isDisabled_false.
    unfold load in D, C. rewrite (runEffect_found _ _ _ _ _ Hf) in D, C.
    destruct (isDisabled (Event.status ev)) eqn:Hs,
      (isDisabled (Event.companyStatus ev)) eqn:Hc; cbn in D, C.
    + destruct (runEffect_company_disabled p second
                  (applyUpdates [setLoading true; setEvent ev; setEventDisabled true;
                                 setCompanyDisabled true; setLoading false] initialState)
                  eq_refl) as [C' _].
      cbn in C'. congruence.
    + discriminate.
    + destruct (runEffect_company_disabled p second
                  (applyUpdates [setLoading true; setEvent ev;
                                 setCompanyDisabled true; setLoading false] initialState)
                  eq_refl) as [C' _].
      cbn in C'. congruence.
    + auto.
  - intros (events & status & ev & -> & Hf & Hs & Hc & _).
    now rewrite (load_enabled p events status second ev Hf Hs Hc).
Qed.

(** X7. When the first answer of the listing is a rejected request, a
    failure status other than 403, a malformed body or a collection without
    a matching event, the effect runs once and the page ends on the generic
    error view, with no event and no disabled flag, whatever a second
    request would be answered. *)
Theorem unavailable_ends_on_error_view (p : Props) (first second : Listing) :
  unavailable p first ->
  let st := load p first second in
  st = applyUpdates [setError notAvailable; setLoading false] initialState /\
  render st = ErrorView "Event not found or no longer available" /\
  submissionState st = FetchError /\
  event st = None /\ eventDisabled st = false /\ companyDisabled st = false.
Proof.
  intros H. cbn zeta.
  assert (E : load p first second
              = applyUpdates [setError notAvailable; setLoading false] initialState).
  { unfold load, unavailable in *.
    destruct first as [e|[[] status [e|events]]]; cbn in H;
      unfold runEffect, fetchEventDetails, Eff.calls; cbn.
    - reflexivity.
    - reflexivity.
    - rewrite H. reflexivity.
    - destruct (status =? 403)%Z eqn:S; [apply Z.eqb_eq in S; contradiction|reflexivity].
    - destruct (status =? 403)%Z eqn:S; [apply Z.eqb_eq in S; contradiction|reflexivity]. }
  rewrite E. repeat split; reflexivity.
Qed.

Lemma unavailable_ends_on_error_view_witness :
  render (load acme (listed [] 200) (listed [launchParty] 200))
  = ErrorView "Event not found or no longer available".
Proof.
  apply (unavailable_ends_on_error_view acme (listed [] 200) (listed [launchParty] 200)).
  reflexivity.
Defined.

(** X8. When the resolver selects, in the first answer of the listing, an
    event whose [companyStatus] is ['disabled'], the page ends on a
    disabled view with no error message, whatever the listing answers to
    the second run of the effect: the view of the disabled organization,
    unless [eventDisabled] is set as well, which it is when the [status] of
    the event is ['disabled'] too. *)
Theorem disabled_company_ends_on_disabled_view (p : Props) (events : list Event.t)
    (status : Z) (second : Listing) (ev : Event.t) :
  findEvent (eventId p) events = Some ev ->
  Event.companyStatus ev = Some "disabled" ->
  let st := load p (listed events status) second in
  companyDisabled st = true /\
  error st = "" /\
  render st = DisabledView (if eventDisabled st then "Registration Disabled"
                            else "Company Inactive") /\
  submissionState st = (if eventDisabled st then EventDisabled else OrgDisabled) /\
  (Event.status ev = Some "disabled" -> eventDisabled st = true).
Proof.
  intros Hf Hc%isDisabled_true. cbn zeta.
  unfold load. rewrite (runEffect_found _ _ _ _ _ Hf), Hc.
  set (st1 := applyUpdates _ initialState).
  assert (C1 : companyDisabled st1 = true).
  { unfold st1. now destruct (isDisabled (Event.status ev)). }
  assert (R1 : error st1 = "").
  { unfold st1. now destruct (isDisabled (Event.status ev)). }
  rewrite C1. cbn [Bool.eqb initialState companyDisabled].
  destruct (runEffect_company_disabled p second st1 C1) as [C2 R2].
  destruct (runEffect_frame p second st1) as (L2 & _ & _ & S2 & U2).
  assert (S1 : submitting st1 = false).
  { unfold st1. now destruct (isDisabled (Event.status ev)). }
  assert (Hr : render (runEffect p second st1)
               = DisabledView (if eventDisabled (runEffect p second st1)
                               then "Registration Disabled" else "Company Inactive")).
  { unfold render. rewrite L2, R2, R1, C2. cbn. now rewrite orb_true_r. }
  split; [exact C2|]. split; [now rewrite R2|]. split; [exact Hr|].
  split; [unfold submissionState; now rewrite Hr|].
  intros Hs%isDisabled_true. apply runEffect_eventDisabled_kept.
  unfold st1. now rewrite Hs.
Qed.

Lemma disabled_company_ends_on_disabled_view_witness :
  let ev := {| Event.id := "launch-party"; Event.name := "Launch Party";
               Event.image := None; Event.description := "";
               Event.date := "2025-01-01"; Event.registrations := 0;
               Event.status := None; Event.companyStatus := Some "disabled" |} in
  render (load acme (listed [ev] 200) (refused 403 (inl (Error "Forbidden"))))
  = DisabledView "Company Inactive".
Proof.
  intros ev.
  destruct (disabled_company_ends_on_disabled_view acme [ev] 200
              (refused 403 (inl (Error "Forbidden"))) ev)
    as (_ & _ & H & _); [reflexivity | reflexivity | exact H].
Defined.

(** ** What the submit handler sends, and when *)

Lemma fieldError_Some key value e :
  fieldError key value = Some e ->
  e = validateField key value /\ e <> "" /\ In key textFields.
Proof.
  intros H.
  destruct (in_dec String.string_dec key textFields) as [Hin|Hout].
  - rewrite (fieldError_text _ _ Hin) in H.
    destruct (String.eqb_spec (validateField key value) ""); [discriminate|].
    injection H as <-. auto.
  - now rewrite (fieldError_other _ _ Hout) in H.
Qed.

Lemma fieldError_None key value :
  fieldError key value = None <-> (In key textFields -> validateField key value = "").
Proof.
  destruct (in_dec String.string_dec key textFields) as [Hin|Hout].
  - rewrite (fieldError_text _ _ Hin).
    destruct (String.eqb_spec (validateField key value) ""); split; auto; try discriminate.
    intros H. now specialize (H Hin).
  - rewrite (fieldError_other _ _ Hout). tauto.
Qed.

(** The flag of the loop stays down exactly when every free-text entry of
    the form data passes the validator. *)
Lemma validateAll_pass (fd : gmap string string) :
  (validateAll fd).2 = false <->
  forall k v, fd !! k = Some v -> In k textFields -> validateField k v = "".
Proof.
  destruct (validateAll_spec fd) as [_ V2]. split.
  - intros H k v Hk. apply fieldError_None.
    destruct (fieldError k v) as [e|] eqn:E; [|reflexivity].
    assert ((validateAll fd).2 = true) by (apply V2; exists k, v; rewrite E; eauto).
    congruence.
  - intros H. apply not_true_is_false. intros F.
    apply V2 in F as (k & v & Hk & [e He]).
    apply fieldError_Some in He as (-> & Hne & Hin). now rewrite (H k v Hk Hin) in Hne.
Qed.

(** X9. The submit handler issues the registration request exactly when the
    state it closes over holds an event, has neither disabled flag set, and
    every free-text value of the form data passes the validator; in every
    other state it returns without a network call. *)
Theorem request_issued_iff (p : Props) (st : PageState) :
  is_Some (requestOf (handleSubmit p st)) <->
  is_Some (event st) /\
  eventDisabled st = false /\
  companyDisabled st = false /\
  (forall k v, formData st !! k = Some v -> In k textFields -> validateField k v = "").
Proof.
  rewrite <- validateAll_pass. unfold handleSubmit.
  destruct (event st) as [ev|].
  - destruct (eventDisabled st), (companyDisabled st); cbn;
      try (split; [intros [? [=]] | intros (_ & ? & ? & _); discriminate]).
    destruct (validateAll (formData st)) as [errors []]; cbn.
    + split; [intros [? [=]] | intros (_ & _ & _ & ?); discriminate].
    + split; eauto 6.
  - cbn. split; [intros [? [=]] | intros ([? [=]] & _)].
Qed.

(** X10. The body of the request holds every entry of the form data with
    the value as the form holds it, untrimmed, and besides those only
    [companyName] and [eventName]. *)
Theorem request_carries_form_values (p : Props) (st : PageState) (request : Request) :
  requestOf (handleSubmit p st) = Some request ->
  (forall k v, formData st !! k = Some v -> body request !! k = Some v) /\
  (forall k, is_Some (body request !! k) <->
     is_Some (formData st !! k) \/ k = "companyName" \/ k = "eventName").
Proof.
  unfold handleSubmit.
  destruct (event st) as [ev|]; [|discriminate].
  destruct (eventDisabled st || companyDisabled st); [discriminate|].
  destruct (validateAll (formData st)) as [errors []]; [discriminate|].
  intros [= <-]. cbn [body]. split.
  - intros k v Hk. now rewrite registrationBody_lookup, Hk.
  - intros k. rewrite registrationBody_lookup.
    destruct (formData st !! k) as [v|]; [split; eauto|].
    destruct (decide (k = "eventName")) as [->|]; [split; eauto|].
    destruct (decide (k = "companyName")) as [->|]; [split; eauto|].
    split; [intros [? [=]] | intros [[? [=]]|[?|?]]; contradiction].
Qed.

Lemma request_carries_form_values_witness :
  exists request,
    requestOf (handleSubmit acme (changed "name" "  Ada Lovelace " adaTyped))
    = Some request /\
    body request !! "name" = Some "  Ada Lovelace ".
Proof.
  eexists. split; [vm_compute; reflexivity|].
  eapply (request_carries_form_values acme (changed "name" "  Ada Lovelace " adaTyped));
    [vm_compute; reflexivity | reflexivity].
Defined.

(** X11. In every editing state the page goes through, a request that the
    submit handler issues carries a name, a college and a national
    identifier that are not blank, a phone number of 10 to 15 digits and an
    e-mail address of the accepted shape. *)
Theorem request_carries_valid_values (p : Props) (first second : Listing)
    (st : PageState) (request : Request) :
  reachable p first second st ->
  requestOf (handleSubmit p st) = Some request ->
  exists name phone email college nationalId,
    (body request !! "name" = Some name /\ ~ blank name) /\
    (body request !! "phone" = Some phone /\ phoneShape phone) /\
    (body request !! "email" = Some email /\ emailShape email) /\
    (body request !! "college" = Some college /\ ~ blank college) /\
    (body request !! "nationalId" = Some nationalId /\ ~ blank nationalId).
Proof.
  intros Hr Hreq.
  destruct (reachable_invariant _ _ _ _ Hr) as (I1 & _ & _).
  assert (Hopen : (validateAll (formData st)).2 = false /\
                  forall k v, formData st !! k = Some v -> body request !! k = Some v).
  { revert Hreq. unfold handleSubmit.
    destruct (event st) as [ev|]; [|discriminate].
    destruct (eventDisabled st || companyDisabled st); [discriminate|].
    destruct (validateAll (formData st)) as [errors []]; [discriminate|].
    intros [= <-]. split; [reflexivity|].
    intros k v Hk. cbn [body]. now rewrite registrationBody_lookup, Hk. }
  destruct Hopen as [Hv Hb].
  pose proof (proj1 (validateAll_pass (formData st)) Hv) as Hok. clear Hv.
  rename Hok into Hv.
  assert (Hp : forall k, In k textFields ->
                 exists v, body request !! k = Some v /\ validateField k v = "").
  { intros k Hk.
    assert (Hin : In k inputNames) by (cbn in *; tauto).
    apply I1 in Hin as [v Hv']. exists v. split; [now apply Hb | now apply Hv]. }
  destruct (Hp "name") as (name & Bn & Vn); [cbn; tauto|].
  destruct (Hp "phone") as (phone & Bp & Vp); [cbn; tauto|].
  destruct (Hp "email") as (email & Be & Ve); [cbn; tauto|].
  destruct (Hp "college") as (college & Bc & Vc); [cbn; tauto|].
  destruct (Hp "nationalId") as (nationalId & Bi & Vi); [cbn; tauto|].
  exists name, phone, email, college, nationalId.
  revert Vn Vp Ve Vc Vi. unfold validateField. cbn.
  rewrite <- phonePattern_shape, <- emailPattern_shape.
  destruct (trim_eqb_blank name) as [_ Nn], (trim_eqb_blank college) as [_ Nc],
    (trim_eqb_blank nationalId) as [_ Ni].
  destruct (String.eqb (Js.trim name) ""); [discriminate|].
  destruct (String.eqb (Js.trim phone) ""); [discriminate|].
  destruct (String.eqb (Js.trim email) ""); [discriminate|].
  destruct (String.eqb (Js.trim college) ""); [discriminate|].
  destruct (String.eqb (Js.trim nationalId) ""); [discriminate|].
  destruct (test phonePattern phone); [|discriminate].
  destruct (test emailPattern email); [|discriminate].
  intros _ _ _ _ _.
  repeat split; auto; [now apply Nn | now apply Nc | now apply Ni].
Qed.

Lemma request_carries_valid_values_witness :
  exists request name phone email college nationalId,
    requestOf (handleSubmit acme adaTyped) = Some request /\
    (body request !! "name" = Some name /\ ~ blank name) /\
    (body request !! "phone" = Some phone /\ phoneShape phone) /\
    (body request !! "email" = Some email /\ emailShape email) /\
    (body request !! "college" = Some college /\ ~ blank college) /\
    (body request !! "nationalId" = Some nationalId /\ ~ blank nationalId).
Proof.
  eexists.
  assert (Hreq : requestOf (handleSubmit acme adaTyped) = Some _)
    by (vm_compute; reflexivity).
  destruct (request_carries_valid_values acme (listed [launchParty] 200)
              (listed [launchParty] 200) adaTyped _
              ltac:(repeat (apply reach_change; [|reflexivity|cbn; tauto]); apply reach_load)
              Hreq)
    as (name & phone & email & college & nationalId & Hall).
  exists name, phone, email, college, nationalId. split; [exact Hreq | exact Hall].
Defined.

(** ** What every state of the page keeps *)

Lemma validateAll_entries (fd : gmap string string) k e :
  (validateAll fd).1 !! k = Some e ->
  exists v, fd !! k = Some v /\ e = validateField k v /\ e <> "" /\ In k textFields.
Proof.
  destruct (validateAll_spec fd) as [V1 _]. rewrite V1.
  destruct (fd !! k) as [v|]; cbn; [|discriminate].
  intros H%fieldError_Some. eauto.
Qed.

Section Settled.

Variable p : Props.
Variables first second : Listing.

Lemma load_settledCells : settledCells (load p first second) (load p first second).
Proof.
  destruct (load_cells p first second) as (L & S & U & F & E & R).
  unfold settledCells. rewrite L, S, U, E.
  repeat split; discriminate.
Qed.

Lemma changed_settledCells loaded st name value :
  submissionState st = Editing ->
  settledCells loaded st -> settledCells loaded (changed name value st).
Proof.
  intros (L & R & S & D & C & U)%editing_cells (I1 & I2 & I3 & I4 & I5 & I6 & I7).
  rewrite changed_cells. unfold settledCells. cbn.
  rewrite S, U. repeat split; try assumption; try discriminate.
  intros k e. destruct (decide (name = k)) as [<-|Hne].
  - rewrite !lookup_insert_eq. intros [= <-]. eauto.
  - rewrite !lookup_insert_ne by done. apply I7.
Qed.

Lemma submitted_settledCells loaded st :
  submissionState st = Editing ->
  settledCells loaded st -> settledCells loaded (submitted p st).
Proof.
  intros (L & R & S & D & C & U)%editing_cells (I1 & I2 & I3 & I4 & I5 & I6 & I7).
  unfold submitted, handleSubmit.
  destruct (event st) as [ev|] eqn:Ev.
  - rewrite D, C. cbn [orb].
    destruct (validateAll (formData st)) as [errors []] eqn:V;
      unfold settledCells; cbn; rewrite ?S, ?U, ?Ev;
      repeat split; try assumption; try discriminate;
      intros k e He;
      (assert (Hv : (validateAll (formData st)).1 !! k = Some e) by now rewrite V);
      apply validateAll_entries in Hv as (v & ? & ? & _); eauto.
  - unfold settledCells. cbn. rewrite S, U, Ev.
    repeat split; try assumption; try discriminate.
Qed.

Lemma settled_settledCells loaded st reply :
  submissionState st = Editing ->
  settledCells loaded st -> settledCells loaded (settled p st reply).
Proof.
  intros He I.
  pose proof (submitted_settledCells loaded st He I) as (J1 & J2 & J3 & J4 & J5 & J6 & J7).
  pose proof He as (L & R & S & D & C & U)%editing_cells.
  unfold settled. destruct (handleSubmit p st) as [calls|calls request k] eqn:Hs.
  - exact (conj J1 (conj J2 (conj J3 (conj J4 (conj J5 (conj J6 J7)))))).
  - assert (Hk : k = fun reply => Eff.calls (submitSettled reply)).
    { revert Hs. unfold handleSubmit.
      destruct (event st); [|discriminate].
      destruct (eventDisabled st || companyDisabled st); [discriminate|].
      destruct (validateAll (formData st)) as [errors []]; [discriminate|].
      now intros [= _ _ <-]. }
    assert (Hsub : success (submitted p st) = false /\ error (submitted p st) = "").
    { unfold submitted. rewrite Hs. revert Hs. unfold handleSubmit.
      destruct (event st); [|discriminate].
      destruct (eventDisabled st || companyDisabled st); [discriminate|].
      destruct (validateAll (formData st)) as [errors []]; [discriminate|].
      intros [= <- _ _]. cbn. auto. }
    destruct Hsub as [Us Rs].
    subst k. cbn [settledOf]. rewrite submitSettled_calls.
    unfold settledCells.
    destruct reply as [e|[[] status [e|errorData]]]; cbn; rewrite ?Us;
      (split; [exact J1|]); (split; [exact J2|]); (split; [exact J3|]);
      (split; [exact J4|]); (split; [intros [=]|]);
      (split; [first [intros _; repeat split; exact Rs | intros [=]]|]);
      first [exact J7 | intros k e'; rewrite lookup_empty; intros [=]].
Qed.

Theorem reachable_settledCells st :
  reachable p first second st -> settledCells (load p first second) st.
Proof.
  induction 1 as [|st name value _ IH He _|st _ IH He|st reply _ IH He].
  - apply load_settledCells.
  - now apply changed_settledCells.
  - now apply submitted_settledCells.
  - now apply settled_settledCells.
Qed.

End Settled.

(** X12. In every state the page goes through, an entry of the error map
    is the message of the validator for the value that the form data holds
    under the same name: the messages on screen are never those of an
    earlier value. *)
Theorem error_map_matches_form_values (p : Props) (first second : Listing)
    (st : PageState) (k e : string) :
  reachable p first second st ->
  formErrors st !! k = Some e ->
  exists v, formData st !! k = Some v /\ e = validateField k v.
Proof.
  intros Hr. destruct (reachable_settledCells p first second st Hr)
    as (_ & _ & _ & _ & _ & _ & I7).
  apply I7.
Qed.

Lemma error_map_matches_form_values_witness :
  exists v,
    formData (changed "phone" "12" acmeLoaded) !! "phone" = Some v /\
    "Invalid phone number format. Must be 10-15 digits" = validateField "phone" v.
Proof.
  apply (error_map_matches_form_values acme (listed [launchParty] 200)
           (listed [launchParty] 200) (changed "phone" "12" acmeLoaded) "phone").
  - apply reach_change; [apply reach_load | reflexivity | cbn; tauto].
  - reflexivity.
Defined.

(** In a state without a request in flight the early returns of the
    component decide alone: an error message gives the error view once
    [loading] is unset, and the form is rendered without one only. *)
Lemma render_idle st :
  submitting st = false ->
  (loading st = false -> error st <> "" -> render st = ErrorView (error st)) /\
  (forall banner disabled, render st = FormView banner disabled -> banner = "").
Proof.
  intros S. unfold render. rewrite S.
  destruct (loading st); [split; [discriminate|discriminate]|].
  destruct (String.eqb_spec (error st) "") as [R|R]; cbn.
  - rewrite R. split; [congruence|].
    intros banner disabled.
    destruct (eventDisabled st || companyDisabled st); [discriminate|].
    destruct (success st); [discriminate|]. now intros [= <- _].
  - split; [reflexivity|]. discriminate.
Qed.

(** X13. In every state the page rests in from its first render on, the
    loading states included and the setter calls of one run of the effect
    or of a handler being applied together: while [loading] is set the page
    shows the loading view; once it is unset, a non-empty error message
    puts the page on the blocking error view; while [submitting] is set,
    the registration request being in flight, there is no error message;
    so whenever the form is rendered its error banner is empty. *)
Theorem error_message_blocks_the_form (p : Props) (first second : Listing)
    (st : PageState) :
  visited p first second st ->
  (loading st = true -> render st = LoadingView) /\
  (loading st = false -> error st <> "" -> render st = ErrorView (error st)) /\
  (submitting st = true -> error st = "") /\
  (forall banner disabled, render st = FormView banner disabled -> banner = "").
Proof.
  intros Hv.
  split; [intros L; unfold render; now rewrite L|].
  assert (Hidle : submitting st = false ->
            (loading st = false -> error st <> "" -> render st = ErrorView (error st)) /\
            (submitting st = true -> error st = "") /\
            (forall banner disabled, render st = FormView banner disabled -> banner = "")).
  { intros S. destruct (render_idle st S) as [H1 H2].
    split; [exact H1|]. split; [congruence|exact H2]. }
  destruct (runEffect_frame p first initialState) as (_ & _ & _ & S1 & _).
  destruct Hv as [| |_|st Hr].
  - now apply Hidle.
  - now apply Hidle.
  - now apply Hidle.
  - destruct (submitting st) eqn:S; [|now apply Hidle].
    destruct (reachable_settledCells p first second st Hr)
      as (L & _ & _ & _ & I5 & _ & _).
    destruct (I5 S) as [R _].
    split; [congruence|]. split; [auto|].
    intros banner disabled. unfold render. rewrite L, R, S. cbn.
    destruct (eventDisabled st || companyDisabled st); [discriminate|].
    destruct (success st); [discriminate|]. now intros [= <- _].
Qed.

Lemma error_message_blocks_the_form_witness :
  render (applyUpdates [setLoading true]
            (runEffect acme (refused 403 (inl (Error "Forbidden"))) initialState))
  = LoadingView /\
  render (settled acme adaTyped (inl (Error "Failed to fetch")))
  = ErrorView "Failed to fetch".
Proof.
  split.
  - destruct (error_message_blocks_the_form acme (refused 403 (inl (Error "Forbidden")))
                (listed [launchParty] 200)
                (applyUpdates [setLoading true]
                   (runEffect acme (refused 403 (inl (Error "Forbidden"))) initialState)))
      as [H _].
    + apply visit_rerun. discriminate.
    + apply H. reflexivity.
  - destruct (error_message_blocks_the_form acme (listed [launchParty] 200)
                (listed [launchParty] 200)
                (settled acme adaTyped (inl (Error "Failed to fetch"))))
      as (_ & H & _).
    + apply visit_reachable. apply reach_settled; [|reflexivity].
      repeat (apply reach_change; [|reflexivity|cbn; tauto]). apply reach_load.
    + apply H; [reflexivity|]. vm_compute. discriminate.
Defined.

(** X14. The handlers never set [loading] and never touch the event or the
    two disabled flags: in every state the page goes through, [loading] is
    unset and the three are as loading left them. *)
Theorem handlers_keep_the_loaded_event (p : Props) (first second : Listing)
    (st : PageState) :
  reachable p first second st ->
  loading st = false /\
  event st = event (load p first second) /\
  eventDisabled st = eventDisabled (load p first second) /\
  companyDisabled st = companyDisabled (load p first second).
Proof.
  intros Hr. destruct (reachable_settledCells p first second st Hr)
    as (L & E & D & C & _). auto.
Qed.

Lemma handlers_keep_the_loaded_event_witness :
  event (settled acme adaTyped (accepted 201 (inr None))) = Some launchParty.
Proof.
  destruct (handlers_keep_the_loaded_event acme (listed [launchParty] 200)
              (listed [launchParty] 200)
              (settled acme adaTyped (accepted 201 (inr None)))) as (_ & H & _).
  - apply reach_settled; [|reflexivity].
    repeat (apply reach_change; [|reflexivity|cbn; tauto]). apply reach_load.
  - exact H.
Defined.

Lemma success_flags p first second st :
  reachable p first second st ->
  success st = true ->
  eventDisabled st = false /\ companyDisabled st = false.
Proof.
  induction 1 as [|st name value _ IH He _|st _ IH He|st reply _ IH He]; intros U.
  - destruct (load_cells p first second) as (_ & _ & U' & _). congruence.
  - apply editing_cells in He as (_ & _ & _ & _ & _ & U'). cbn in U. congruence.
  - apply editing_cells in He as (_ & _ & _ & _ & _ & U').
    destruct (submitted_frame p st) as (_ & _ & _ & _ & F & _). congruence.
  - apply editing_cells in He as (_ & _ & _ & D & C & _).
    destruct (settled_frame p st reply) as (_ & F2 & F3 & _). now rewrite F2, F3.
Qed.

(** X15. In every state the page goes through in which [success] is set,
    the page shows the success view, the form data is the object of
    defaults, the error map is empty and there is no error message. *)
Theorem success_leaves_a_cleared_form (p : Props) (first second : Listing)
    (st : PageState) :
  reachable p first second st ->
  success st = true ->
  submissionState st = Success /\
  formData st = emptyFormData /\
  formErrors st = ∅ /\
  error st = "" /\
  submitting st = false.
Proof.
  intros Hr U.
  destruct (reachable_settledCells p first second st Hr)
    as (L & _ & _ & _ & _ & I6 & _).
  destruct (I6 U) as (F & E & R & S).
  destruct (success_flags p first second st Hr U) as [D C].
  split; [|auto].
  unfold submissionState, render. now rewrite L, R, S, D, C, U.
Qed.

Lemma success_leaves_a_cleared_form_witness :
  formData (settled acme adaTyped (accepted 201 (inr None))) = emptyFormData.
Proof.
  destruct (success_leaves_a_cleared_form acme (listed [launchParty] 200)
              (listed [launchParty] 200)
              (settled acme adaTyped (accepted 201 (inr None)))) as (_ & H & _).
  - apply reach_settled; [|reflexivity].
    repeat (apply reach_change; [|reflexivity|cbn; tauto]). apply reach_load.
  - reflexivity.
  - exact H.
Defined.

(** ** Change events compose *)

(** X16. Of two change events for the same field the later one wins, and
    change events for different fields commute: the state after a series of
    changes holds, for each field, the last value given to it and the
    message of the validator for that value. *)
Theorem changes_compose (st : PageState) (name name' value value' : string) :
  changed name value' (changed name value st) = changed name value' st /\
  (name <> name' ->
   changed name value (changed name' value' st)
   = changed name' value' (changed name value st)).
Proof.
  rewrite !changed_cells. cbn. split.
  - now rewrite !insert_insert_eq.
  - intros Hne.
    rewrite (insert_insert_ne (formData st) name name') by done.
    now rewrite (insert_insert_ne (formErrors st) name name') by done.
Qed.

(** ** A request that fails without a JSON body *)

(** X17. When the request of a submission from the editing state is
    rejected, or answered with a failure status and a body that is not
    JSON, the handler sets the message of the error thrown, not the
    fallback, clears [submitting] and keeps the form values; the page then
    shows the blocking error view, or, the message being empty, is back in
    the editing state without any message. *)
Theorem thrown_error_message_is_shown (p : Props) (st : PageState)
    (request : Request) (status : Z) (e : exn) :
  submissionState st = Editing ->
  requestOf (handleSubmit p st) = Some request ->
  let st' := settled p st (inl e) in
  settled p st (inr {| ok := false; status := status; json := inl e |}) = st' /\
  error st' = message e /\
  submitting st' = false /\
  success st' = false /\
  formData st' = formData st /\
  (message e <> "" -> render st' = ErrorView (message e)) /\
  (message e = "" -> submissionState st' = Editing).
Proof.
  intros He Hreq. cbn zeta.
  destruct (submitting_cells p st request He Hreq) as [Hs Hd].
  apply editing_cells in He as (L & R & S & D & C & U).
  rewrite !Hd, Hs, !submitSettled_calls. cbn.
  split; [reflexivity|]. split; [reflexivity|]. split; [reflexivity|].
  split; [exact U|]. split; [reflexivity|].
  unfold submissionState, render. cbn. rewrite L, D, C, U.
  destruct (String.eqb_spec (message e) "") as [M|M]; cbn.
  - split; [congruence|]. intros _. reflexivity.
  - split; [reflexivity|congruence].
Qed.

Lemma thrown_error_message_is_shown_witness :
  render (settled acme adaTyped (inr {| ok := false; status := 502;
                                        json := inl (Error "Unexpected token <") |}))
  = ErrorView "Unexpected token <".
Proof.
  edestruct (thrown_error_message_is_shown acme adaTyped)
    with (status := 502%Z) (e := Error "Unexpected token <")
    as (H1 & _ & _ & _ & _ & H2 & _).
  - reflexivity.
  - vm_compute. reflexivity.
  - rewrite H1. apply H2. discriminate.
Defined.

(** ** The error map built at submission *)

(** X18. The loop of the submit handler raises its flag exactly when the
    map it builds is not empty, and every entry of that map is a non-empty
    message of the validator for the value of a free-text field of the
    form data: unlike a change event, it records nothing for a valid value
    or for a select field. *)
Theorem validation_map_and_flag_agree (fd : gmap string string) :
  ((validateAll fd).2 = false <-> (validateAll fd).1 = ∅) /\
  (forall k e, (validateAll fd).1 !! k = Some e ->
     In k textFields /\ e <> "" /\
     exists v, fd !! k = Some v /\ e = validateField k v).
Proof.
  destruct (validateAll_spec fd) as [V1 V2]. split.
  - split.
    + intros F. apply map_eq. intros k. rewrite V1, lookup_empty.
      destruct (fd !! k) as [v|] eqn:Hk; cbn; [|reflexivity].
      destruct (fieldError k v) as [e|] eqn:E; [|reflexivity].
      assert ((validateAll fd).2 = true) by (apply V2; exists k, v; rewrite E; eauto).
      congruence.
    + intros M. apply not_true_is_false. intros F.
      apply V2 in F as (k & v & Hk & [e He]).
      pose proof (V1 k) as Hl. rewrite M, lookup_empty, Hk in Hl. cbn in Hl. congruence.
  - intros k e (v & Hk & -> & Hne & Hin)%validateAll_entries. eauto.
Qed.

(** ** The listing request *)

Lemma encodeUnit_safe c :
  forallb (fun d => existsb (Ascii.eqb d) (Uri.unreserved ++ ["%"%char]))
    (Js.units (Uri.encodeUnit c)) = true.
Proof. destruct c as [[] [] [] [] [] [] [] []]; reflexivity. Qed.

Lemma unescape_encodeUnit c s :
  unescape (Uri.encodeUnit c +:+ s) = String c (unescape s).
Proof. destruct c as [[] [] [] [] [] [] [] []]; reflexivity. Qed.

Lemma unescape_encodeURIComponent s : unescape (Uri.encodeURIComponent s) = s.
Proof.
  induction s as [|c s IH]; [reflexivity|].
  cbn [Uri.encodeURIComponent]. now rewrite unescape_encodeUnit, IH.
Qed.

(** X19. The listing request passes the organization name through
    [encodeURIComponent]: the query value is made of unreserved characters
    and "%" only, so none of "&", "=", "#", "?", "/", "+" or a space of the
    name reaches the URL; a name of unreserved characters is sent as it
    is; and different names give different URLs. *)
Theorem listing_url_escapes_the_name (p : Props) :
  listingUrl p = "/api/events?company=" +:+ Uri.encodeURIComponent (companyName p) /\
  (forall c, In c (Js.units (Uri.encodeURIComponent (companyName p))) ->
     In c Uri.unreserved \/ c = "%"%char) /\
  (forall c, In c (Js.units (Uri.encodeURIComponent (companyName p))) ->
     ~ In c (Js.units "&=#?/+ ")) /\
  ((forall c, In c (Js.units (companyName p)) -> In c Uri.unreserved) ->
     Uri.encodeURIComponent (companyName p) = companyName p) /\
  (forall p', listingUrl p' = listingUrl p -> companyName p' = companyName p).
Proof.
  assert (Hsafe : forall s c, In c (Js.units (Uri.encodeURIComponent s)) ->
                    In c (Uri.unreserved ++ ["%"%char])).
  { induction s as [|d s IH]; cbn [Uri.encodeURIComponent]; [intros c []|].
    intros c. rewrite units_app. intros [H|H]%in_app_or; [|now apply IH].
    pose proof (encodeUnit_safe d) as Hd. rewrite forallb_forall in Hd.
    now apply existsb_eqb_In, Hd. }
  split; [reflexivity|]. split; [|split; [|split]].
  - intros c Hc. apply Hsafe, in_app_or in Hc as [Hc|[<-|[]]]; auto.
  - intros c Hc%Hsafe Hbad. revert Hc. cbn in Hbad.
    decompose [or] Hbad; subst; try contradiction;
      cbn; intros Hc; decompose [or] Hc; discriminate || contradiction.
  - induction (companyName p) as [|d s IH]; [reflexivity|].
    intros H. cbn [Uri.encodeURIComponent]. rewrite IH.
    + unfold Uri.encodeUnit.
      assert (Hd : existsb (Ascii.eqb d) Uri.unreserved = true).
      { apply existsb_eqb_In, H. now left. }
      now rewrite Hd.
    + intros c Hc. apply H. now right.
  - intros p' H. unfold listingUrl in H. apply String.app_inj in H.
    rewrite <- (unescape_encodeURIComponent (companyName p')), H.
    apply unescape_encodeURIComponent.
Qed.

Example listingUrl_sample :
  listingUrl {| companyName := "R&D Labs"; eventId := "x" |}
  = "/api/events?company=R%26D%20Labs".
Proof. reflexivity. Qed.

(** ** The resolver in the words of the specification *)

Lemma lowerUnit_foldCase c : Js.lowerUnit c = foldCase c.
Proof. destruct c as [[] [] [] [] [] [] [] []]; reflexivity. Qed.

Lemma toLowerCase_sameLetters a : forall b,
  Js.toLowerCase a = Js.toLowerCase b <-> sameLetters a b.
Proof.
  unfold sameLetters.
  induction a as [|c a IH]; intros [|d b]; cbn.
  - split; [constructor|reflexivity].
  - split; [discriminate|inversion 1].
  - split; [discriminate|inversion 1].
  - rewrite !lowerUnit_foldCase. split.
    + intros [= Hc Ha]. constructor; [exact Hc|now apply IH].
    + inversion 1 as [|? ? ? ? Hc Ha]; subst. f_equal; [exact Hc|now apply IH].
Qed.

Lemma blank_forallb s : blank s <-> forallb Js.isWhiteSpace (Js.units s) = true.
Proof.
  rewrite forallb_forall. unfold blank.
  split; intros H c Hc; now apply isWhiteSpace_In, H.
Qed.

Lemma blank_cons c s : blank (String c s) <-> In c Js.whiteSpace /\ blank s.
Proof.
  unfold blank. cbn. split.
  - intros H. split; [apply H; now left | intros d Hd; apply H; now right].
  - intros [Hc Hs] d [<-|Hd]; auto.
Qed.

Lemma String_app_cons c a b : String c a +:+ b = String c (a +:+ b).
Proof. reflexivity. Qed.

Lemma trimStart_split s : exists lead, s = lead +:+ Js.trimStart s /\ blank lead.
Proof.
  induction s as [|c s (lead & E & B)]; cbn.
  - exists "". split; [reflexivity|intros c []].
  - destruct (Js.isWhiteSpace c) eqn:W.
    + exists (String c lead). split; [now rewrite String_app_cons, <- E|].
      apply blank_cons. split; [now apply isWhiteSpace_In|exact B].
    + exists "". split; [reflexivity|intros d []].
Qed.

Lemma trimEnd_split s : exists trail, s = Js.trimEnd s +:+ trail /\ blank trail.
Proof.
  induction s as [|c s (trail & E & B)]; cbn.
  - exists "". split; [reflexivity|intros c []].
  - destruct (Js.trimEnd s) as [|d t] eqn:T.
    + change (s = trail) in E. subst trail. destruct (Js.isWhiteSpace c) eqn:W.
      * exists (String c s). split; [reflexivity|].
        apply blank_cons. split; [now apply isWhiteSpace_In|exact B].
      * exists s. split; [reflexivity|exact B].
    + exists trail. split; [now rewrite String_app_cons, <- E|exact B].
Qed.

Lemma trimEnd_last s c :
  last (Js.units (Js.trimEnd s)) = Some c -> ~ In c Js.whiteSpace.
Proof.
  induction s as [|a s IH]; cbn; [discriminate|].
  destruct (Js.trimEnd s) as [|d t] eqn:T.
  - destruct (Js.isWhiteSpace a) eqn:W; cbn; [discriminate|].
    intros [= <-]. now apply isWhiteSpace_not_In.
  - exact IH.
Qed.

Lemma trim_trimmedTo s : trimmedTo s (Js.trim s).
Proof.
  destruct (trimStart_split s) as (lead & E1 & B1).
  destruct (trimEnd_split (Js.trimStart s)) as (trail & E2 & B2).
  exists lead, trail. unfold Js.trim.
  split; [now rewrite <- E2|]. split; [exact B1|]. split; [exact B2|]. split.
  - destruct (Js.trimStart s) as [|c u] eqn:U; [discriminate|].
    pose proof (trimStart_head _ _ _ U) as W.
    destruct (trimEnd_head c u W) as [t ->]. cbn.
    intros d [= <-]. now apply isWhiteSpace_not_In.
  - apply trimEnd_last.
Qed.

Lemma trimStart_app_blank lead s : blank lead -> Js.trimStart (lead +:+ s) = Js.trimStart s.
Proof.
  induction lead as [|c lead IH]; [reflexivity|].
  intros [Hc Hl]%blank_cons. rewrite String_app_cons. cbn [Js.trimStart].
  apply isWhiteSpace_In in Hc. rewrite Hc. now apply IH.
Qed.

Lemma trimEnd_app_blank s trail : blank trail -> Js.trimEnd (s +:+ trail) = Js.trimEnd s.
Proof.
  intros B. induction s as [|c s IH].
  - change ("" +:+ trail) with trail. now apply trimEnd_blank, blank_forallb.
  - rewrite String_app_cons. cbn [Js.trimEnd]. now rewrite IH.
Qed.

Lemma trimEnd_fixed s :
  (forall c, last (Js.units s) = Some c -> ~ In c Js.whiteSpace) -> Js.trimEnd s = s.
Proof.
  induction s as [|a s IH]; [reflexivity|].
  intros H. destruct s as [|d t].
  - cbn. assert (W : Js.isWhiteSpace a = false).
    { apply isWhiteSpace_not_In, H. reflexivity. }
    now rewrite W.
  - assert (E : Js.trimEnd (String d t) = String d t) by (apply IH; exact H).
    change (Js.trimEnd (String a (String d t)))
      with (match Js.trimEnd (String d t) with
            | EmptyString =>
                if Js.isWhiteSpace a then EmptyString else String a EmptyString
            | String _ _ as u => String a u
            end).
    now rewrite E.
Qed.

(** The trimmed string is the only one [trimmedTo] relates a string to. *)
Lemma trimmedTo_trim s core : trimmedTo s core -> Js.trim s = core.
Proof.
  intros (lead & trail & -> & B1 & B2 & Hh & Hl). unfold Js.trim.
  rewrite (trimStart_app_blank _ _ B1).
  destruct core as [|c u].
  - change ("" +:+ trail) with trail.
    apply blank_forallb, trimStart_blank in B2. now rewrite B2.
  - assert (W : Js.isWhiteSpace c = false).
    { apply isWhiteSpace_not_In, Hh. reflexivity. }
    rewrite String_app_cons. cbn [Js.trimStart]. rewrite W.
    rewrite <- String_app_cons.
    rewrite (trimEnd_app_blank _ _ B2). now apply trimEnd_fixed.
Qed.

(** The comparison of [findEvent] is the one the specification words. *)
Lemma sameIdentifier_spec requested e :
  sameIdentifier requested e <-> specSameIdentifier requested (Event.id e).
Proof.
  unfold sameIdentifier, specSameIdentifier. split.
  - intros H. exists (Js.trim requested), (Js.trim (Event.id e)).
    split; [apply trim_trimmedTo|]. split; [apply trim_trimmedTo|].
    now apply toLowerCase_sameLetters.
  - intros (r & s & <-%trimmedTo_trim & <-%trimmedTo_trim & H).
    symmetry. now apply toLowerCase_sameLetters.
Qed.

(** C6, amended. For every requested identifier and every collection of
    events, the resolver selects an event exactly when that event is the
    first of the collection whose identifier equals the requested one after
    trimming surrounding white space and lowercasing both sides, equality
    in the words of the specification and not in those of the code; it
    selects nothing exactly when no event matches, and an event that is the
    only one to match is the one selected.  When the selected event has
    neither disabled flag the page reaches the editing state.  So
    "Launch-Party" selects the event stored as "launch-party", and so do
    " Launch-Party " and "  launch-PARTY " whatever the case and the
    padding of the stored identifier, and the page is then editing. *)
Theorem resolver_selects_first_match (requested : string) (events : list Event.t) :
  (forall e,
      findEvent requested events = Some e <->
      exists before after,
        events = before ++ e :: after /\
        specSameIdentifier requested (Event.id e) /\
        forall x, In x before -> ~ specSameIdentifier requested (Event.id x)) /\
  (findEvent requested events = None <->
   forall x, In x events -> ~ specSameIdentifier requested (Event.id x)) /\
  (forall e,
      In e events ->
      specSameIdentifier requested (Event.id e) ->
      (forall x, In x events -> specSameIdentifier requested (Event.id x) -> x = e) ->
      findEvent requested events = Some e) /\
  (forall company status second e,
      findEvent requested events = Some e ->
      Event.status e <> Some "disabled" ->
      Event.companyStatus e <> Some "disabled" ->
      submissionState
        (load {| companyName := company; eventId := requested |}
           (listed events status) second) = Editing) /\
  (forall second,
      findEvent "Launch-Party" [launchParty] = Some launchParty /\
      findEvent " Launch-Party " [launchParty] = Some launchParty /\
      findEvent "  launch-PARTY " [launchPartyUpper] = Some launchPartyUpper /\
      findEvent "launch-party" [launchPartyUpper; launchParty] = Some launchPartyUpper /\
      findEvent "launch party" [launchPartyUpper; launchParty] = None /\
      submissionState
        (load {| companyName := "Acme"; eventId := "Launch-Party" |}
           (listed [launchParty] 200) second) = Editing /\
      submissionState
        (load {| companyName := "Acme"; eventId := " Launch-Party " |}
           (listed [launchParty] 200) second) = Editing).
Proof.
  assert (Hsome : forall e,
      findEvent requested events = Some e <->
      exists before after,
        events = before ++ e :: after /\
        specSameIdentifier requested (Event.id e) /\
        forall x, In x before -> ~ specSameIdentifier requested (Event.id x)).
  { intros e. rewrite findEvent_Some. split.
    - intros (before & after & E & He & Hb). exists before, after.
      split; [exact E|]. split; [now apply sameIdentifier_spec|].
      intros x Hx Hs. apply (Hb x Hx). now apply sameIdentifier_spec.
    - intros (before & after & E & He & Hb). exists before, after.
      split; [exact E|]. split; [now apply sameIdentifier_spec|].
      intros x Hx Hs. apply (Hb x Hx). now apply sameIdentifier_spec. }
  assert (Hnone : findEvent requested events = None <->
      forall x, In x events -> ~ specSameIdentifier requested (Event.id x)).
  { rewrite findEvent_None. split.
    - intros H x Hx Hs. apply (H x Hx). now apply sameIdentifier_spec.
    - intros H x Hx Hs. apply (H x Hx). now apply sameIdentifier_spec. }
  split; [exact Hsome|]. split; [exact Hnone|]. split.
  { intros e Hin He Huniq.
    destruct (findEvent requested events) as [e'|] eqn:Hf.
    - pose proof (proj1 (Hsome e') eq_refl) as (before & after & E & He' & _).
      f_equal. apply Huniq; [|exact He']. rewrite E. apply in_or_app. right. now left.
    - exfalso. apply (proj1 Hnone eq_refl e Hin He). }
  split.
  - intros company status second e Hf Hs Hc.
    rewrite (load_enabled _ _ _ _ e); [reflexivity|exact Hf|exact Hs|exact Hc].
  - intros second. repeat (split; [reflexivity|]).
    split; rewrite (load_enabled _ _ _ _ launchParty);
      reflexivity || discriminate.
Qed.

(** C6 as stated fails when two events of the collection match: the
    identifier of [launchPartyUpper] equals "Launch-Party" after trimming
    and lowercasing, and [find] has stopped at [launchParty] before it. *)
Lemma second_match_is_not_selected :
  ~ selectsEveryMatch "Launch-Party" [launchParty; launchPartyUpper].
Proof.
  intros H.
  destruct (H launchPartyUpper) as [_ Hsel]; [right; now left|].
  assert (Hs : specSameIdentifier "Launch-Party" (Event.id launchPartyUpper)).
  { apply sameIdentifier_spec. reflexivity. }
  apply Hsel in Hs. discriminate.
Qed.
